(** * TStateMachine: a shallow embedding of [StateMachine.h]

    The header defines one class template, [TStateMachine<EnumClass,
    TemplateClass>], which keeps a current state and three [std::map]s from
    states to pointers to member functions of the owning class, and calls
    those member functions on the owner when the state changes or on a tick.

    The bodies of the owner's member functions are not part of the header.
    They are parameters of the model: total functions on the whole program
    state, the machine included, since nothing stops a callback from calling
    back into the machine it was called from. *)

From Stdlib Require Import NArith.
From stdpp Require Import base option gmap fin_maps.

(** ** The status enumeration *)

Inductive EStateMachineStatus : Type :=
  | NullOwner
  | StateChanged
  | StateUnchanged
  | TickSuccess.

#[global] Instance EStateMachineStatus_eq_dec : EqDecision EStateMachineStatus.
Proof. solve_decision. Defined.

(** ** Pointers

    [TemplateClass* Owner] is an address; [if(Owner)] tests it against the
    null address. *)

Definition ptr : Type := N.
Definition nullptr : ptr := 0%N.

(** [if(p)] for a pointer [p]. *)
Definition nonnull (p : ptr) : bool := negb (N.eqb p nullptr).

(** ** [std::map::operator[]]

    [m[k]] on a map whose values are (member function) pointers returns the
    value stored at [k]; when there is none it first stores a
    value-initialised one, the null pointer, and returns that. *)

Section Subscript.
Context {K : Type} `{Countable K} {F : Type}.

Definition subscript (m : gmap K (option F)) (k : K)
  : option F * gmap K (option F) :=
  match m !! k with
  | Some v => (v, m)
  | None => (None, <[k := None]> m)
  end.

(** What a reader of the map can learn about [k]: absent and null read the
    same. *)
Definition bound (m : gmap K (option F)) (k : K) : option F :=
  default None (m !! k).
End Subscript.

(** ** The class template

    [template<class EnumClass, class TemplateClass>]. What the machine needs
    of its two parameters: the states, usable as keys of a [std::map], and,
    of the owner class, the names of its [void()] and of its [void(float)]
    member functions. A pointer to member function is [Some] name, or [None]
    when null. [float] is the type of [DeltaTime], which the machine only
    passes on, and [Memory] is everything in the program's memory that is
    not the machine itself, the owner object included. *)

Class Template : Type := {
  EnumClass : Type;
  EnumClass_eq_dec :: EqDecision EnumClass;
  EnumClass_countable :: Countable EnumClass;
  VoidFn : Type;
  FloatFn : Type;
  float : Type;
  Memory : Type;
}.

(** The three typedefs. *)
Abbreviation CallbackOnEnter := (option VoidFn) (only parsing).
Abbreviation CallbackOnUpdate := (option FloatFn) (only parsing).
Abbreviation CallbackOnExit := (option VoidFn) (only parsing).

Section TStateMachine.
Context `{Template}.

Record TStateMachine : Type := mkTStateMachine {
  Owner : ptr;
  CurrentState : EnumClass;
  StatesOnEnter : gmap EnumClass CallbackOnEnter;
  StatesTick : gmap EnumClass CallbackOnUpdate;
  StatesOnExit : gmap EnumClass CallbackOnEnter;
}.

Definition set_CurrentState (s : EnumClass) (sm : TStateMachine) : TStateMachine :=
  mkTStateMachine (Owner sm) s (StatesOnEnter sm) (StatesTick sm) (StatesOnExit sm).
Definition set_StatesOnEnter (m : gmap EnumClass CallbackOnEnter) (sm : TStateMachine)
  : TStateMachine :=
  mkTStateMachine (Owner sm) (CurrentState sm) m (StatesTick sm) (StatesOnExit sm).
Definition set_StatesTick (m : gmap EnumClass CallbackOnUpdate) (sm : TStateMachine)
  : TStateMachine :=
  mkTStateMachine (Owner sm) (CurrentState sm) (StatesOnEnter sm) m (StatesOnExit sm).
Definition set_StatesOnExit (m : gmap EnumClass CallbackOnEnter) (sm : TStateMachine)
  : TStateMachine :=
  mkTStateMachine (Owner sm) (CurrentState sm) (StatesOnEnter sm) (StatesTick sm) m.

(** The constructor: the two assignments, and three empty maps. *)
Definition construct (owner : ptr) (emptyState : EnumClass) : TStateMachine :=
  mkTStateMachine owner emptyState ∅ ∅ ∅.

(** The program state a member function runs in. *)
Record World : Type := mkWorld {
  memory : Memory;
  machine : TStateMachine;
}.

Definition on_machine (f : TStateMachine → TStateMachine) (w : World) : World :=
  mkWorld (memory w) (f (machine w)).

(** One call the machine makes through a pointer to member function:
    [(this->*f)()] or [(this->*f)(DeltaTime)]. *)
Inductive Call : Type :=
  | CallVoid (this : ptr) (f : VoidFn)
  | CallFloat (this : ptr) (f : FloatFn) (DeltaTime : float).

(** A member function of the machine: it reads and writes the world,
    returns a value, and leaves the list of the calls it made itself, in
    the order it made them. Calls made inside a callback's body belong to
    that body and are not listed. *)
Definition M (A : Type) : Type := World → A * World * list Call.

#[global] Instance M_ret : MRet M := λ A a w, (a, w, []).
#[global] Instance M_bind : MBind M := λ A B k m w,
  let '(a, w1, l1) := m w in
  let '(b, w2, l2) := k a w1 in
  (b, w2, l1 ++ l2).

Definition result {A} (r : A * World * list Call) : A := r.1.1.
Definition after {A} (r : A * World * list Call) : World := r.1.2.
Definition calls {A} (r : A * World * list Call) : list Call := r.2.

(** Reading a data member. *)
Definition read {A} (field : TStateMachine → A) : M A :=
  λ w, (field (machine w), w, []).

(** [CurrentState = s;] *)
Definition assign_CurrentState (s : EnumClass) : M () :=
  λ w, ((), on_machine (set_CurrentState s) w, []).

(** [StatesOnEnter[k]], [StatesTick[k]] and [StatesOnExit[k]] read as
    values. *)
Definition StatesOnEnter_at (k : EnumClass) : M CallbackOnEnter :=
  λ w, let '(v, m) := subscript (StatesOnEnter (machine w)) k in
       (v, on_machine (set_StatesOnEnter m) w, []).
Definition StatesTick_at (k : EnumClass) : M CallbackOnUpdate :=
  λ w, let '(v, m) := subscript (StatesTick (machine w)) k in
       (v, on_machine (set_StatesTick m) w, []).
Definition StatesOnExit_at (k : EnumClass) : M CallbackOnExit :=
  λ w, let '(v, m) := subscript (StatesOnExit (machine w)) k in
       (v, on_machine (set_StatesOnExit m) w, []).

(** [StatesOnEnter[k] = v;] and its two siblings. *)
Definition StatesOnEnter_put (k : EnumClass) (v : CallbackOnEnter) : M () :=
  λ w, ((), on_machine (λ sm, set_StatesOnEnter (<[k := v]> (StatesOnEnter sm)) sm) w, []).
Definition StatesTick_put (k : EnumClass) (v : CallbackOnUpdate) : M () :=
  λ w, ((), on_machine (λ sm, set_StatesTick (<[k := v]> (StatesTick sm)) sm) w, []).
Definition StatesOnExit_put (k : EnumClass) (v : CallbackOnExit) : M () :=
  λ w, ((), on_machine (λ sm, set_StatesOnExit (<[k := v]> (StatesOnExit sm)) sm) w, []).

(** Two worlds that differ at most in whether a state with no callback has
    an entry holding the null pointer or no entry at all. The class's public
    member functions read the maps only through [operator[]], so code outside
    the class cannot tell two such worlds apart. *)
Record alike (w w' : World) : Prop := mkAlike {
  alike_memory : memory w = memory w';
  alike_Owner : Owner (machine w) = Owner (machine w');
  alike_CurrentState : CurrentState (machine w) = CurrentState (machine w');
  alike_StatesOnEnter : ∀ k,
    bound (StatesOnEnter (machine w)) k = bound (StatesOnEnter (machine w')) k;
  alike_StatesTick : ∀ k,
    bound (StatesTick (machine w)) k = bound (StatesTick (machine w')) k;
  alike_StatesOnExit : ∀ k,
    bound (StatesOnExit (machine w)) k = bound (StatesOnExit (machine w')) k;
}.

#[global] Instance World_equiv : Equiv World := alike.

(** [state] has no entry in any of the three maps. *)
Definition unregistered (state : EnumClass) (w : World) : Prop :=
  StatesOnEnter (machine w) !! state = None
  ∧ StatesTick (machine w) !! state = None
  ∧ StatesOnExit (machine w) !! state = None.

(** [state] has no callback of any kind: each of its three entries is
    missing or holds the null pointer. This is how a state that was never
    registered looks, before and after the lookups of [ChangeState] and
    [Tick] have left null entries for it. *)
Definition without_callback (state : EnumClass) (w : World) : Prop :=
  bound (StatesOnEnter (machine w)) state = None
  ∧ bound (StatesTick (machine w)) state = None
  ∧ bound (StatesOnExit (machine w)) state = None.

End TStateMachine.

(** The owner class's code: what the body of each member function does to
    the world when run on the object at [this]. *)
Class OwnerCode `{Template} : Type := {
  body : VoidFn → ptr → World → World;
  body_float : FloatFn → ptr → float → World → World;
}.

Section Members.
Context `{OwnerCode}.

(** [(Owner->*f)();] *)
Definition invoke (f : VoidFn) : M () :=
  λ w, let this := Owner (machine w) in
       ((), body f this w, [CallVoid this f]).

(** [(Owner->*f)(DeltaTime);] *)
Definition invoke_float (f : FloatFn) (DeltaTime : float) : M () :=
  λ w, let this := Owner (machine w) in
       ((), body_float f this DeltaTime w, [CallFloat this f DeltaTime]).

(** [if(callback) { ... }] *)
Definition if_set {F} (callback : option F) (call : F → M ()) : M () :=
  match callback with
  | Some f => call f
  | None => mret ()
  end.

Definition RegisterState (state : EnumClass) (callbackEntry : CallbackOnEnter)
    (callbackTick : CallbackOnUpdate) (callbackExit : CallbackOnExit) : M () :=
  StatesOnEnter_put state callbackEntry;;
  StatesTick_put state callbackTick;;
  StatesOnExit_put state callbackExit.

Definition GetCurrentState : M EnumClass :=
  read CurrentState.

Definition ChangeState (stateNext : EnumClass) : M EStateMachineStatus :=
  owner ← read Owner;
  if nonnull owner then
    current ← read CurrentState;
    if bool_decide (current ≠ stateNext) then
      current ← read CurrentState;
      callbackExit ← StatesOnExit_at current;
      if_set callbackExit invoke;;
      assign_CurrentState stateNext;;
      current ← read CurrentState;
      callbackEnter ← StatesOnEnter_at current;
      if_set callbackEnter invoke;;
      mret StateChanged
    else mret StateUnchanged
  else mret NullOwner.

Definition Tick (DeltaTime : float) : M EStateMachineStatus :=
  owner ← read Owner;
  if nonnull owner then
    current ← read CurrentState;
    callback ← StatesTick_at current;
    match callback with
    | Some f => invoke_float f DeltaTime;; mret TickSuccess
    | None => mret NullOwner
    end
  else mret NullOwner.

(** For the statements below: the world after [if(callback) {
    (Owner->*callback)(); }] and the calls that statement makes. *)
Definition ran (callback : CallbackOnEnter) (w : World) : World :=
  match callback with
  | Some f => body f (Owner (machine w)) w
  | None => w
  end.

Definition called (callback : CallbackOnEnter) (w : World) : list Call :=
  match callback with
  | Some f => [CallVoid (Owner (machine w)) f]
  | None => []
  end.

(** The owner's [void()] member functions cannot tell alike worlds apart. *)
Definition oblivious : Prop :=
  ∀ f this, Proper ((≡) ==> (≡)) (body f this).

(** No state has a callback of any kind: every entry of the three maps is
    missing or null. *)
Definition silent (w : World) : Prop :=
  ∀ k, bound (StatesOnEnter (machine w)) k = None
       ∧ bound (StatesTick (machine w)) k = None
       ∧ bound (StatesOnExit (machine w)) k = None.

(** The owner's [void()] member functions, and its [void(float)] ones,
    leave the machine's [Owner] as it is. *)
Definition keeps_Owner : Prop :=
  ∀ f this w, Owner (machine (body f this w)) = Owner (machine w).
Definition keeps_Owner_float : Prop :=
  ∀ f this dt w, Owner (machine (body_float f this dt w)) = Owner (machine w).


End Members.

(** ** A concrete owner

    The scenario of the machine's intended use: an entity that is idle or
    moving, with one more state, [Blocked], whose enter callback sends the
    machine straight back to [Idle]. *)

Module Entity.

Inductive State : Type := Idle | Moving | Blocked.

#[global] Instance State_eq_dec : EqDecision State.
Proof. solve_decision. Defined.

Definition State_to_nat (s : State) : nat :=
  match s with Idle => 0 | Moving => 1 | Blocked => 2 end.
Definition State_of_nat (n : nat) : State :=
  match n with 0 => Idle | 1 => Moving | _ => Blocked end.

#[global] Instance State_countable : Countable State :=
  inj_countable' State_to_nat State_of_nat
    (λ s, match s with Idle => eq_refl | Moving => eq_refl | Blocked => eq_refl end).

Inductive EntityVoidFn : Type :=
  | onEnterIdle | onExitIdle | onEnterMoving | onEnterBlocked.
Inductive EntityFloatFn : Type :=
  | onTickIdle | onTickMoving.

(** What the entity writes down each time one of its callbacks runs. *)
Inductive Ran : Type :=
  | RanVoid (f : EntityVoidFn)
  | RanFloat (f : EntityFloatFn) (DeltaTime : N).

(** [DeltaTime] as the bits of a 32-bit float. *)
#[global] Instance entity : Template := {|
  EnumClass := State;
  VoidFn := EntityVoidFn;
  FloatFn := EntityFloatFn;
  float := N;
  Memory := list Ran;
|}.

Definition half : N := 0x3F000000%N.

Definition note (r : Ran) (w : World) : World :=
  mkWorld (memory w ++ [r]) (machine w).

Definition entity_body_float (f : EntityFloatFn) (this : ptr) (DeltaTime : N)
    (w : World) : World :=
  note (RanFloat f DeltaTime) w.

(** Every callback notes that it ran; [onEnterBlocked] then calls
    [ChangeState(Idle)] on the machine it was called from. The callbacks
    that call runs belong to the same class, so the definition is recursive;
    [depth] is how many calls to [ChangeState] may be open inside one
    another before [onEnterBlocked] stops making its own. *)
Fixpoint entity_body (depth : nat) (f : EntityVoidFn) (this : ptr) (w : World)
    : World :=
  let w := note (RanVoid f) w in
  match f, depth with
  | onEnterBlocked, S d =>
      after (ChangeState (H0 := Build_OwnerCode entity (entity_body d) entity_body_float)
               Idle w)
  | _, _ => w
  end.

(** In the worlds below [onEnterBlocked] is the enter callback of [Blocked]
    and of no other state, so the call it makes never runs it again and a
    depth of one loses nothing. *)
#[global] Instance entity_code : OwnerCode :=
  Build_OwnerCode entity (entity_body 1) entity_body_float.

(** A machine owned by the object at address 1, with the three states
    registered. *)
Definition fresh : World := mkWorld [] (construct 1%N Idle).

Definition registered : World :=
  after (RegisterState Blocked (Some onEnterBlocked) None None
  (after (RegisterState Moving (Some onEnterMoving) (Some onTickMoving) None
  (after (RegisterState Idle (Some onEnterIdle) (Some onTickIdle) (Some onExitIdle)
  fresh))))).

(** A machine in which [Idle], the state it is in, was never registered. *)
Definition partly : World :=
  after (RegisterState Blocked (Some onEnterBlocked) None None
  (after (RegisterState Moving (Some onEnterMoving) (Some onTickMoving) None
  fresh))).

(** That machine after a [Tick] in [Idle], and after it has then gone to
    [Moving]: the lookups have left null entries for [Idle], which still was
    never registered. *)
Definition ticked : World := after (Tick half partly).
Definition visited : World := after (ChangeState Moving ticked).

(** The same machine with no owner. *)
Definition orphan : World :=
  mkWorld [] (mkTStateMachine nullptr Idle (StatesOnEnter (machine registered))
                (StatesTick (machine registered)) (StatesOnExit (machine registered))).

End Entity.

(** * Properties *)

(** ** Pointers and [operator[]] *)

Lemma nonnull_true (p : ptr) : p ≠ nullptr → nonnull p = true.
Proof.
  intros Hp. unfold nonnull. destruct (N.eqb_spec p nullptr); [done | reflexivity].
Qed.

Lemma nonnull_false (p : ptr) : p = nullptr → nonnull p = false.
Proof. intros ->. reflexivity. Qed.

Section SubscriptFacts.
Context {K : Type} `{Countable K} {F : Type}.
Implicit Types (m : gmap K (option F)) (k : K).

Lemma subscript_value m k : (subscript m k).1 = bound m k.
Proof. unfold subscript, bound. by destruct (m !! k). Qed.

Lemma subscript_present m k v : m !! k = Some v → subscript m k = (v, m).
Proof. intros E. unfold subscript. by rewrite E. Qed.

Lemma subscript_absent m k : m !! k = None → subscript m k = (None, <[k := None]> m).
Proof. intros E. unfold subscript. by rewrite E. Qed.

(** The map [operator[]] leaves reads like the one it found. *)
Lemma subscript_bound m k j : bound (subscript m k).2 j = bound m j.
Proof.
  unfold subscript, bound. destruct (m !! k) eqn:E; [done |]. simpl.
  destruct (decide (k = j)) as [-> | Hne].
  - by rewrite lookup_insert_eq, E.
  - by rewrite lookup_insert_ne.
Qed.

Lemma bound_insert m k v j :
  bound (<[k := v]> m) j = if decide (k = j) then v else bound m j.
Proof.
  unfold bound. destruct (decide (k = j)) as [-> | Hne].
  - by rewrite lookup_insert_eq.
  - by rewrite lookup_insert_ne.
Qed.
End SubscriptFacts.

(** ** The member functions, case by case *)

Section Cases.
Context `{OwnerCode}.
Implicit Types (w : World) (s : EnumClass) (dt : float).

Lemma result_of {A} (a : A) w (l : list Call) : result (a, w, l) = a.
Proof. reflexivity. Qed.
Lemma after_of {A} (a : A) w (l : list Call) : after (a, w, l) = w.
Proof. reflexivity. Qed.
Lemma calls_of {A} (a : A) w (l : list Call) : calls (a, w, l) = l.
Proof. reflexivity. Qed.

Lemma ChangeState_null w s :
  Owner (machine w) = nullptr → ChangeState s w = (NullOwner, w, []).
Proof.
  intros E. unfold ChangeState, mbind, M_bind, read. by rewrite (nonnull_false _ E).
Qed.

Lemma Tick_null w dt :
  Owner (machine w) = nullptr → Tick dt w = (NullOwner, w, []).
Proof.
  intros E. unfold Tick, mbind, M_bind, read. by rewrite (nonnull_false _ E).
Qed.

Lemma ChangeState_same w s :
  Owner (machine w) ≠ nullptr → s = CurrentState (machine w) →
  ChangeState s w = (StateUnchanged, w, []).
Proof.
  intros Ho ->. unfold ChangeState, mbind, M_bind, read.
  rewrite (nonnull_true _ Ho). rewrite bool_decide_eq_false_2; [done | tauto].
Qed.

(** A genuine transition, statement by statement. *)
Lemma ChangeState_other w s :
  Owner (machine w) ≠ nullptr → CurrentState (machine w) ≠ s →
  let x := StatesOnExit_at (CurrentState (machine w)) w in
  let w_set := on_machine (set_CurrentState s) (ran (result x) (after x)) in
  let e := StatesOnEnter_at s w_set in
  ChangeState s w =
    (StateChanged, ran (result e) (after e),
     called (result x) (after x) ++ called (result e) (after e)).
Proof.
  intros Ho Hs. unfold ChangeState, mbind, M_bind, read.
  rewrite (nonnull_true _ Ho), (bool_decide_eq_true_2 _ Hs).
  unfold StatesOnExit_at at 1.
  destruct (subscript (StatesOnExit (machine w)) (CurrentState (machine w)))
    as [cx mx] eqn:Ex.
  cbn zeta. unfold StatesOnExit_at. rewrite Ex. unfold result, after. cbn [fst snd].
  set (w1 := on_machine (set_StatesOnExit mx) w).
  assert (Hx : if_set cx invoke w1 = ((), ran cx w1, called cx w1)).
  { destruct cx; reflexivity. }
  rewrite Hx. unfold assign_CurrentState. cbn [CurrentState machine on_machine set_CurrentState].
  set (w3 := on_machine (set_CurrentState s) (ran cx w1)).
  unfold StatesOnEnter_at.
  destruct (subscript (StatesOnEnter (machine w3)) s) as [ce me] eqn:Ee.
  cbn [fst snd].
  set (w4 := on_machine (set_StatesOnEnter me) w3).
  assert (He : if_set ce invoke w4 = ((), ran ce w4, called ce w4)).
  { destruct ce; reflexivity. }
  rewrite He. unfold mret, M_ret. by rewrite !app_nil_r.
Qed.

Lemma Tick_bound w dt f :
  Owner (machine w) ≠ nullptr →
  StatesTick (machine w) !! CurrentState (machine w) = Some (Some f) →
  Tick dt w =
    (TickSuccess, body_float f (Owner (machine w)) dt w,
     [CallFloat (Owner (machine w)) f dt]).
Proof.
  intros Ho E. unfold Tick, mbind, M_bind, read. rewrite (nonnull_true _ Ho).
  unfold StatesTick_at. rewrite (subscript_present _ _ _ E).
  unfold invoke_float, mret, M_ret. cbn.
  by destruct w as [mem []].
Qed.

Lemma Tick_unbound w dt :
  Owner (machine w) ≠ nullptr →
  bound (StatesTick (machine w)) (CurrentState (machine w)) = None →
  Tick dt w = (NullOwner, after (StatesTick_at (CurrentState (machine w)) w), []).
Proof.
  intros Ho E. unfold Tick, mbind, M_bind, read. rewrite (nonnull_true _ Ho).
  rewrite <- subscript_value in E. unfold StatesTick_at in *.
  destruct (subscript _ _) as [c m]. simpl in E. by subst c.
Qed.

End Cases.

(** ** What the member functions guarantee *)

Section Guarantees.
Context `{OwnerCode}.
Implicit Types (w : World) (s : EnumClass) (dt : float).

(** C2. With an owner, [ChangeState] to the state the machine is already in
    returns [StateUnchanged], calls nothing and leaves the whole world, the
    current state and the three maps included, as it was. *)
Theorem ChangeState_same_state w s :
  Owner (machine w) ≠ nullptr → s = CurrentState (machine w) →
  let r := ChangeState s w in
  result r = StateUnchanged
  ∧ calls r = []
  ∧ after r = w
  ∧ CurrentState (machine (after r)) = CurrentState (machine w).
Proof.
  intros Ho Hs r. subst r. by rewrite (ChangeState_same w s Ho Hs).
Qed.

(** C3. With an owner, when the current state has no update callback, its
    entry in [StatesTick] being missing or holding the null pointer, [Tick]
    returns [NullOwner] all the same, calls nothing, and changes the world
    by no more than the evaluation of [StatesTick[CurrentState]] does. *)
Theorem Tick_without_callback w dt :
  Owner (machine w) ≠ nullptr →
  StatesTick (machine w) !! CurrentState (machine w) = None
  ∨ StatesTick (machine w) !! CurrentState (machine w) = Some None →
  let r := Tick dt w in
  result r = NullOwner
  ∧ calls r = []
  ∧ after r = after (StatesTick_at (CurrentState (machine w)) w)
  ∧ memory (after r) = memory w
  ∧ CurrentState (machine (after r)) = CurrentState (machine w).
Proof.
  intros Ho Hcb r. subst r.
  assert (E : bound (StatesTick (machine w)) (CurrentState (machine w)) = None).
  { unfold bound. by destruct Hcb as [-> | ->]. }
  rewrite (Tick_unbound w dt Ho E). repeat split;
    unfold after, StatesTick_at; by destruct (subscript _ _).
Qed.

(** C4. Without an owner, [ChangeState] and [Tick] return [NullOwner]
    whatever their argument, call nothing, and leave the world, the current
    state and the three maps included, as it was. *)
Theorem without_owner w s dt :
  Owner (machine w) = nullptr →
  ChangeState s w = (NullOwner, w, [])
  ∧ Tick dt w = (NullOwner, w, []).
Proof.
  intros Ho. split; [by apply ChangeState_null | by apply Tick_null].
Qed.

(** C5. With an owner, when [StatesTick] holds a callback [f] that is not
    null for the current state, [Tick(dt)] returns [TickSuccess] and makes
    one call, [(Owner->*f)(dt)]; the world it leaves is the one [f]'s body
    leaves. *)
Theorem Tick_with_callback w dt f :
  Owner (machine w) ≠ nullptr →
  StatesTick (machine w) !! CurrentState (machine w) = Some (Some f) →
  let r := Tick dt w in
  result r = TickSuccess
  ∧ calls r = [CallFloat (Owner (machine w)) f dt]
  ∧ after r = body_float f (Owner (machine w)) dt w.
Proof.
  intros Ho E r. subst r. by rewrite (Tick_bound w dt f Ho E).
Qed.

(** C8. [Tick] returns [NullOwner] or [TickSuccess]; [ChangeState] returns
    [NullOwner], [StateChanged] or [StateUnchanged]; and the enumeration has
    these four values and no other. *)
Theorem status_ranges w s dt :
  (result (Tick dt w) = NullOwner ∨ result (Tick dt w) = TickSuccess)
  ∧ (result (ChangeState s w) = NullOwner
     ∨ result (ChangeState s w) = StateChanged
     ∨ result (ChangeState s w) = StateUnchanged)
  ∧ ∀ status : EStateMachineStatus,
      status = NullOwner ∨ status = StateChanged
      ∨ status = StateUnchanged ∨ status = TickSuccess.
Proof.
  split; [| split].
  - destruct (decide (Owner (machine w) = nullptr)) as [Ho | Ho].
    + left. by rewrite (Tick_null w dt Ho).
    + destruct (bound (StatesTick (machine w)) (CurrentState (machine w)))
        as [f |] eqn:E.
      * right. rewrite (Tick_bound w dt f Ho); [done |].
        unfold bound in E. by destruct (_ !! _) as [[] |]; simplify_eq/=.
      * left. by rewrite (Tick_unbound w dt Ho E).
  - destruct (decide (Owner (machine w) = nullptr)) as [Ho | Ho].
    + left. by rewrite (ChangeState_null w s Ho).
    + destruct (decide (CurrentState (machine w) = s)) as [Hs | Hs].
      * right; right. by rewrite (ChangeState_same w s Ho (eq_sym Hs)).
      * right; left. by rewrite (ChangeState_other w s Ho Hs).
  - intros []; tauto.
Qed.

(** C1, as the code has it. With an owner, [ChangeState(s)] for [s] other
    than the current state returns [StateChanged] and makes at most two
    calls, in this order and each with no argument: the exit callback of the
    old state if [StatesOnExit] holds one, then the enter callback that
    [StatesOnEnter] holds for [s] once the exit callback has returned, if
    any. [CurrentState] is [s] when the enter callback starts, and is [s]
    when [ChangeState] returns if there is no enter callback or if its body
    leaves [CurrentState] alone; a body that calls back into the machine
    need not. *)
Theorem ChangeState_transition w s :
  Owner (machine w) ≠ nullptr → CurrentState (machine w) ≠ s →
  let old := CurrentState (machine w) in
  let callbackExit := bound (StatesOnExit (machine w)) old in
  let w_exit := ran callbackExit (after (StatesOnExit_at old w)) in
  let w_set := on_machine (set_CurrentState s) w_exit in
  let callbackEnter := bound (StatesOnEnter (machine w_set)) s in
  let w_enter := after (StatesOnEnter_at s w_set) in
  let r := ChangeState s w in
  result r = StateChanged
  ∧ calls r = called callbackExit (after (StatesOnExit_at old w))
              ++ called callbackEnter w_enter
  ∧ after r = ran callbackEnter w_enter
  ∧ CurrentState (machine w_enter) = s
  ∧ ((∀ f, callbackEnter = Some f →
           CurrentState (machine (body f (Owner (machine w_enter)) w_enter)) = s) →
     result (GetCurrentState (after r)) = s).
Proof.
  intros Ho Hs old callbackExit w_exit w_set callbackEnter w_enter r.
  assert (Ex : result (StatesOnExit_at old w) = callbackExit).
  { unfold result, StatesOnExit_at, callbackExit. rewrite <- subscript_value.
    by destruct (subscript _ _). }
  assert (Ee : result (StatesOnEnter_at s w_set) = callbackEnter).
  { unfold result, StatesOnEnter_at, callbackEnter. rewrite <- subscript_value.
    by destruct (subscript _ _). }
  assert (Hcur : CurrentState (machine w_enter) = s).
  { unfold w_enter, after, StatesOnEnter_at. by destruct (subscript _ _). }
  subst r. rewrite (ChangeState_other w s Ho Hs). fold old. rewrite Ex.
  fold w_exit. fold w_set. rewrite Ee. fold w_enter.
  repeat split; [done |].
  intros Hkeep. unfold GetCurrentState, read, result, after. cbn [fst snd].
  destruct callbackEnter as [f |]; [by apply Hkeep | done].
Qed.

End Guarantees.

Section Construction.
Context `{Template}.

(** C9. A machine constructed with any owner and any initial state reports
    that state, which starts with no entry in any map; and
    [GetCurrentState] returns [CurrentState], calls nothing and leaves the
    world as it was. *)
Theorem GetCurrentState_constructed (owner : ptr) (emptyState : EnumClass)
    (mem : Memory) (w : World) :
  result (GetCurrentState (mkWorld mem (construct owner emptyState))) = emptyState
  ∧ unregistered emptyState (mkWorld mem (construct owner emptyState))
  ∧ GetCurrentState w = (CurrentState (machine w), w, []).
Proof.
  split; [reflexivity |]. split; [| reflexivity].
  repeat split; apply lookup_empty.
Qed.

(** C7. [RegisterState] returns for every argument, calls nothing, and
    touches neither the memory, the owner nor the current state. Done twice
    with the same arguments it leaves what it leaves done once; done again
    for the same state with other callbacks it leaves what the second call
    alone leaves, so that all three maps hold the new callbacks; other
    states keep their entries, and the state has one entry in each map. *)
Theorem RegisterState_overwrites (w : World) (state : EnumClass)
    (e e' : CallbackOnEnter) (t t' : CallbackOnUpdate) (x x' : CallbackOnExit) :
  let once := RegisterState state e t x w in
  let again := RegisterState state e' t' x' (after once) in
  (calls once = []
   ∧ memory (after once) = memory w
   ∧ Owner (machine (after once)) = Owner (machine w)
   ∧ CurrentState (machine (after once)) = CurrentState (machine w))
  ∧ RegisterState state e t x (after once) = once
  ∧ after again = after (RegisterState state e' t' x' w)
  ∧ (StatesOnEnter (machine (after again)) !! state = Some e'
     ∧ StatesTick (machine (after again)) !! state = Some t'
     ∧ StatesOnExit (machine (after again)) !! state = Some x')
  ∧ (∀ other, other ≠ state →
       StatesOnEnter (machine (after again)) !! other = StatesOnEnter (machine w) !! other
       ∧ StatesTick (machine (after again)) !! other = StatesTick (machine w) !! other
       ∧ StatesOnExit (machine (after again)) !! other = StatesOnExit (machine w) !! other)
  ∧ (dom (StatesOnEnter (machine (after again))) = dom (StatesOnEnter (machine (after once)))
     ∧ dom (StatesTick (machine (after again))) = dom (StatesTick (machine (after once)))
     ∧ dom (StatesOnExit (machine (after again))) = dom (StatesOnExit (machine (after once))))
  ∧ (NoDup (map_to_list (StatesOnEnter (machine (after again)))).*1
     ∧ NoDup (map_to_list (StatesTick (machine (after again)))).*1
     ∧ NoDup (map_to_list (StatesOnExit (machine (after again)))).*1).
Proof.
  destruct w as [mem [o c me mt mx]]. cbn.
  unfold RegisterState, mbind, M_bind, StatesOnEnter_put, StatesTick_put,
    StatesOnExit_put, after, calls, on_machine, set_StatesOnEnter, set_StatesTick,
    set_StatesOnExit. cbn.
  rewrite !insert_insert_eq.
  split; [done |]. split; [done |]. split; [done |].
  split; [by rewrite !lookup_insert_eq |].
  split; [intros other Hne; by rewrite !lookup_insert_ne |].
  split; [| repeat split; apply NoDup_fst_map_to_list].
  rewrite !dom_insert_L. done.
Qed.

End Construction.

(** ** Worlds that differ in null entries only *)

Section Alike.
Context `{Template}.
Implicit Types (w : World) (s k : EnumClass).

#[global] Instance alike_equivalence : Equivalence (≡@{World}).
Proof.
  split.
  - intros w. by split.
  - intros w w' [].
    split; [done | done | done | intros k; symmetry .. ]; auto.
  - intros w1 w2 w3 [] [].
    split; [congruence | congruence | congruence | intros k .. ];
      etransitivity; eauto.
Qed.

Lemma StatesOnExit_at_result k w :
  result (StatesOnExit_at k w) = bound (StatesOnExit (machine w)) k.
Proof.
  unfold result, StatesOnExit_at. rewrite <- subscript_value.
  by destruct (subscript _ _).
Qed.

Lemma StatesOnEnter_at_result k w :
  result (StatesOnEnter_at k w) = bound (StatesOnEnter (machine w)) k.
Proof.
  unfold result, StatesOnEnter_at. rewrite <- subscript_value.
  by destruct (subscript _ _).
Qed.

Lemma StatesTick_at_result k w :
  result (StatesTick_at k w) = bound (StatesTick (machine w)) k.
Proof.
  unfold result, StatesTick_at. rewrite <- subscript_value.
  by destruct (subscript _ _).
Qed.

(** Evaluating [m[k]] leaves a world like the one it found. *)
Lemma StatesOnExit_at_alike k w : after (StatesOnExit_at k w) ≡ w.
Proof.
  unfold after, StatesOnExit_at.
  pose proof (subscript_bound (StatesOnExit (machine w)) k) as Hb.
  destruct (subscript _ _) as [v m]. by split.
Qed.

Lemma StatesOnEnter_at_alike k w : after (StatesOnEnter_at k w) ≡ w.
Proof.
  unfold after, StatesOnEnter_at.
  pose proof (subscript_bound (StatesOnEnter (machine w)) k) as Hb.
  destruct (subscript _ _) as [v m]. by split.
Qed.

Lemma StatesTick_at_alike k w : after (StatesTick_at k w) ≡ w.
Proof.
  unfold after, StatesTick_at.
  pose proof (subscript_bound (StatesTick (machine w)) k) as Hb.
  destruct (subscript _ _) as [v m]. by split.
Qed.

#[global] Instance set_CurrentState_alike s :
  Proper ((≡) ==> (≡)) (on_machine (set_CurrentState s)).
Proof. intros w w' []. by split. Qed.

Lemma RegisterState_after w state (e : CallbackOnEnter) (t : CallbackOnUpdate)
    (x : CallbackOnExit) :
  after (RegisterState state e t x w) =
    mkWorld (memory w)
      (mkTStateMachine (Owner (machine w)) (CurrentState (machine w))
         (<[state := e]> (StatesOnEnter (machine w)))
         (<[state := t]> (StatesTick (machine w)))
         (<[state := x]> (StatesOnExit (machine w)))).
Proof. reflexivity. Qed.

(** Registering a state with three null pointers changes nothing a reader
    can see when the state had no callback before. *)
Lemma RegisterState_null_alike w s :
  bound (StatesOnEnter (machine w)) s = None →
  bound (StatesTick (machine w)) s = None →
  bound (StatesOnExit (machine w)) s = None →
  after (RegisterState s None None None w) ≡ w.
Proof.
  intros He Ht Hx. rewrite RegisterState_after.
  split; try done; intros k; cbn; rewrite bound_insert; case_decide; by subst.
Qed.



End Alike.

Section Oblivious.
Context `{OwnerCode}.
Implicit Types (w : World) (s k : EnumClass) (dt : float).

Lemma called_Owner (callback : CallbackOnEnter) w w' :
  Owner (machine w) = Owner (machine w') → called callback w = called callback w'.
Proof. intros E. destruct callback; cbn; congruence. Qed.

Lemma called_alike (callback : CallbackOnEnter) w w' :
  w ≡ w' → called callback w = called callback w'.
Proof. intros []. by apply called_Owner. Qed.

Lemma ran_alike (callback : CallbackOnEnter) w w' :
  oblivious → w ≡ w' → ran callback w ≡ ran callback w'.
Proof.
  intros Hb Hw. destruct callback as [f |]; [| done]. cbn.
  rewrite (alike_Owner _ _ Hw). by apply Hb.
Qed.

(** [ChangeState] on like worlds: the same status, the same calls, like
    worlds. *)
Lemma ChangeState_alike w w' s :
  oblivious → w ≡ w' →
  result (ChangeState s w) = result (ChangeState s w')
  ∧ calls (ChangeState s w) = calls (ChangeState s w')
  ∧ after (ChangeState s w) ≡ after (ChangeState s w').
Proof.
  intros Hb Hw.
  pose proof (alike_Owner _ _ Hw) as Eo.
  pose proof (alike_CurrentState _ _ Hw) as Ec.
  destruct (decide (Owner (machine w) = nullptr)) as [Ho | Ho].
  { rewrite (ChangeState_null w s Ho), (ChangeState_null w' s); [done | congruence]. }
  destruct (decide (CurrentState (machine w) = s)) as [Hs | Hs].
  { rewrite (ChangeState_same w s Ho (eq_sym Hs)), (ChangeState_same w' s);
      [done | congruence | congruence]. }
  rewrite (ChangeState_other w s Ho Hs), (ChangeState_other w' s); [| congruence ..].
  rewrite !StatesOnExit_at_result, <- Ec, <- (alike_StatesOnExit _ _ Hw).
  set (cx := bound (StatesOnExit (machine w)) (CurrentState (machine w))).
  assert (H1 : after (StatesOnExit_at (CurrentState (machine w)) w)
               ≡ after (StatesOnExit_at (CurrentState (machine w)) w')).
  { by rewrite !StatesOnExit_at_alike. }
  pose proof (ran_alike cx _ _ Hb H1) as H2.
  pose proof (set_CurrentState_alike s _ _ H2) as H3.
  rewrite !StatesOnEnter_at_result, <- (alike_StatesOnEnter _ _ H3).
  set (ce := bound (StatesOnEnter (machine _)) s).
  assert (H4 : after (StatesOnEnter_at s (on_machine (set_CurrentState s)
                 (ran cx (after (StatesOnExit_at (CurrentState (machine w)) w)))))
               ≡ after (StatesOnEnter_at s (on_machine (set_CurrentState s)
                 (ran cx (after (StatesOnExit_at (CurrentState (machine w)) w')))))).
  { by rewrite !StatesOnEnter_at_alike. }
  rewrite !result_of, !after_of, !calls_of.
  split; [done |]. split.
  - by rewrite (called_alike cx _ _ H1), (called_alike ce _ _ H4).
  - by apply ran_alike.
Qed.


End Oblivious.

(** ** Lookups that insert *)

Section Inserting.
Context `{OwnerCode}.
Implicit Types (w : World) (s k : EnumClass) (dt : float).

Lemma StatesOnExit_at_absent k w :
  StatesOnExit (machine w) !! k = None →
  StatesOnExit_at k w =
    (None, on_machine (set_StatesOnExit (<[k := None]> (StatesOnExit (machine w)))) w, []).
Proof. intros E. unfold StatesOnExit_at. by rewrite (subscript_absent _ _ E). Qed.

Lemma StatesOnEnter_at_absent k w :
  StatesOnEnter (machine w) !! k = None →
  StatesOnEnter_at k w =
    (None, on_machine (set_StatesOnEnter (<[k := None]> (StatesOnEnter (machine w)))) w, []).
Proof. intros E. unfold StatesOnEnter_at. by rewrite (subscript_absent _ _ E). Qed.

Lemma StatesTick_at_absent k w :
  StatesTick (machine w) !! k = None →
  StatesTick_at k w =
    (None, on_machine (set_StatesTick (<[k := None]> (StatesTick (machine w)))) w, []).
Proof. intros E. unfold StatesTick_at. by rewrite (subscript_absent _ _ E). Qed.

(** C10. With an owner, the lookups write. [Tick] in a state with no entry
    in [StatesTick] leaves one there, holding the null pointer, and nothing
    else changes. [ChangeState] to another state leaves such an entry in
    [StatesOnExit] for the old state when it had none, and in
    [StatesOnEnter] for the new state when it has none once the exit
    callback has returned; with both missing, each of the two maps ends one
    entry larger. No call is made for an inserted entry, and the world
    reads as it would without it. *)
Theorem lookups_insert_null_entries w s dt :
  Owner (machine w) ≠ nullptr →
  let old := CurrentState (machine w) in
  (StatesTick (machine w) !! old = None →
     let r := Tick dt w in
     after r = on_machine (set_StatesTick (<[old := None]> (StatesTick (machine w)))) w
     ∧ size (StatesTick (machine (after r))) = S (size (StatesTick (machine w)))
     ∧ calls r = []
     ∧ after r ≡ w)
  ∧ (old ≠ s →
     let r := ChangeState s w in
     (StatesOnExit (machine w) !! old = None →
        let w_set := on_machine (set_CurrentState s)
          (on_machine (set_StatesOnExit (<[old := None]> (StatesOnExit (machine w)))) w) in
        let callbackEnter := bound (StatesOnEnter (machine w)) s in
        StatesOnExit (machine (after (StatesOnEnter_at s w_set)))
          = <[old := None]> (StatesOnExit (machine w))
        ∧ after r = ran callbackEnter (after (StatesOnEnter_at s w_set))
        ∧ calls r = called callbackEnter w)
     ∧ (let callbackExit := bound (StatesOnExit (machine w)) old in
        let w_set := on_machine (set_CurrentState s)
          (ran callbackExit (after (StatesOnExit_at old w))) in
        StatesOnEnter (machine w_set) !! s = None →
        after r = on_machine
                    (set_StatesOnEnter (<[s := None]> (StatesOnEnter (machine w_set))))
                    w_set
        ∧ size (StatesOnEnter (machine (after r)))
          = S (size (StatesOnEnter (machine w_set)))
        ∧ calls r = called callbackExit w)
     ∧ (StatesOnExit (machine w) !! old = None →
        StatesOnEnter (machine w) !! s = None →
        after r = mkWorld (memory w)
                    (mkTStateMachine (Owner (machine w)) s
                       (<[s := None]> (StatesOnEnter (machine w)))
                       (StatesTick (machine w))
                       (<[old := None]> (StatesOnExit (machine w))))
        ∧ size (StatesOnEnter (machine (after r)))
          = S (size (StatesOnEnter (machine w)))
        ∧ size (StatesOnExit (machine (after r)))
          = S (size (StatesOnExit (machine w)))
        ∧ calls r = []
        ∧ after r ≡ on_machine (set_CurrentState s) w)).
Proof.
  intros Ho old. split.
  - intros E r. subst r.
    assert (Eb : bound (StatesTick (machine w)) old = None).
    { unfold bound. by rewrite E. }
    rewrite (Tick_unbound w dt Ho Eb). fold old.
    rewrite (StatesTick_at_absent old w E), !after_of, calls_of.
    split; [done |]. split; [by apply map_size_insert_None |]. split; [done |].
    pose proof (StatesTick_at_alike old w) as Hl.
    by rewrite (StatesTick_at_absent old w E), after_of in Hl.
  - intros Hs r. subst r. rewrite (ChangeState_other w s Ho Hs). fold old.
    rewrite !after_of, !calls_of. split; [| split].
    + intros Ex w_set callbackEnter.
      rewrite (StatesOnExit_at_absent old w Ex), result_of, after_of.
      cbn [ran called]. fold w_set.
      rewrite StatesOnEnter_at_result.
      change (bound (StatesOnEnter (machine w_set)) s) with callbackEnter.
      split; [| split; [done |]].
      * unfold after, StatesOnEnter_at. by destruct (subscript _ _).
      * apply called_Owner.
        by rewrite (alike_Owner _ _ (StatesOnEnter_at_alike s w_set)).
    + intros callbackExit w_set Ee.
      rewrite StatesOnExit_at_result. fold callbackExit. fold w_set.
      rewrite (StatesOnEnter_at_absent s w_set Ee), result_of, after_of.
      cbn [ran called]. rewrite app_nil_r.
      split; [done |]. split; [by apply map_size_insert_None |].
      apply called_alike, StatesOnExit_at_alike.
    + intros Ex Ee.
      rewrite (StatesOnExit_at_absent old w Ex), result_of, after_of.
      cbn [ran called].
      set (w_set := on_machine (set_CurrentState s) _).
      assert (Ee' : StatesOnEnter (machine w_set) !! s = None) by done.
      rewrite (StatesOnEnter_at_absent s w_set Ee'), result_of, after_of.
      cbn [ran called app].
      split; [done |]. cbn.
      split; [by apply map_size_insert_None |].
      split; [by apply map_size_insert_None |]. split; [done |].
      split; try done; intros k; cbn; rewrite bound_insert; case_decide; subst;
        try done; unfold bound; fold old; by rewrite ?Ex, ?Ee.
Qed.

End Inserting.

(** ** States that were never registered *)

Section Unregistered.
Context `{OwnerCode}.
Implicit Types (w : World) (s u : EnumClass).

Lemma unregistered_without_callback w u : unregistered u w → without_callback u w.
Proof. intros (He & Ht & Hx). unfold without_callback, bound. by rewrite He, Ht, Hx. Qed.

(** Like worlds have the same states without callback, so the lookups of
    [ChangeState] and [Tick], which leave like worlds, keep such states. *)
Lemma without_callback_alike w w' u :
  w ≡ w' → without_callback u w → without_callback u w'.
Proof.
  intros [] (He & Ht & Hx). unfold without_callback. repeat split; congruence.
Qed.

(** C6. A state [u] that was never registered has no callback: each of its
    entries is missing, or null where a lookup has left one. With an owner,
    [ChangeState] on a machine with such a [u] and on the same machine with
    [u] registered with three null pointers return the same status, which
    for a genuine transition is [StateChanged]; and they make the same calls
    and leave like worlds, with the same current state, when the owner's
    callbacks cannot tell a missing entry from a null one (the maps are
    private, and the member functions read them through [operator[]] only).
    Leaving [u], nothing is called for the exit; entering [u], nothing is
    called for the enter unless the exit callback of the old state
    registered [u] in the meantime. *)
Theorem ChangeState_unregistered w s u :
  Owner (machine w) ≠ nullptr → without_callback u w →
  let old := CurrentState (machine w) in
  let r := ChangeState s w in
  let r' := ChangeState s (after (RegisterState u None None None w)) in
  result r = result r'
  ∧ (old ≠ s → result r = StateChanged)
  ∧ (oblivious →
       calls r = calls r'
       ∧ after r ≡ after r'
       ∧ CurrentState (machine (after r)) = CurrentState (machine (after r')))
  ∧ (u = old → u ≠ s →
       let callbackEnter := bound (StatesOnEnter (machine w)) s in
       calls r = called callbackEnter w
       ∧ (oblivious →
            after r ≡ ran callbackEnter (on_machine (set_CurrentState s) w)))
  ∧ (u = s → old ≠ u →
       let callbackExit := bound (StatesOnExit (machine w)) old in
       let w_exit := ran callbackExit (after (StatesOnExit_at old w)) in
       bound (StatesOnEnter (machine w_exit)) u = None →
       calls r = called callbackExit w
       ∧ after r ≡ on_machine (set_CurrentState u) w_exit).
Proof.
  intros Ho (Ue & Ut & Ux) old r r'.
  assert (Hw : w ≡ after (RegisterState u None None None w)).
  { symmetry. by apply RegisterState_null_alike. }
  split; [| split; [| split; [| split]]].
  - subst r r'. destruct (decide (old = s)) as [Hs | Hs].
    + rewrite (ChangeState_same w s Ho (eq_sym Hs)), (ChangeState_same _ s); done.
    + rewrite (ChangeState_other w s Ho Hs), (ChangeState_other _ s); done.
  - intros Hs. subst r. by rewrite (ChangeState_other w s Ho Hs).
  - intros Hb. destruct (ChangeState_alike w _ s Hb Hw) as (Hr & Hc & Ha).
    split; [done |]. split; [done |]. by apply alike_CurrentState.
  - intros -> Hs callbackEnter. subst r old.
    rewrite (ChangeState_other w s Ho Hs).
    rewrite StatesOnExit_at_result, Ux, !after_of, calls_of.
    cbn [ran called app].
    set (w_set := on_machine (set_CurrentState s) _).
    assert (Hset : w_set ≡ on_machine (set_CurrentState s) w).
    { subst w_set. apply set_CurrentState_alike, StatesOnExit_at_alike. }
    rewrite StatesOnEnter_at_result, (alike_StatesOnEnter _ _ Hset).
    change (bound (StatesOnEnter (machine (on_machine (set_CurrentState s) w))) s)
      with callbackEnter.
    assert (Hl : after (StatesOnEnter_at s w_set) ≡ on_machine (set_CurrentState s) w).
    { by rewrite StatesOnEnter_at_alike. }
    split; [| intros Hb; by apply ran_alike].
    apply called_Owner. by rewrite (alike_Owner _ _ Hl).
  - intros -> Hs callbackExit w_exit Hn. subst r.
    rewrite (ChangeState_other w s Ho Hs). fold old.
    rewrite StatesOnExit_at_result. fold callbackExit. fold w_exit.
    rewrite StatesOnEnter_at_result, !after_of, calls_of.
    change (bound (StatesOnEnter (machine (on_machine (set_CurrentState s) w_exit))) s)
      with (bound (StatesOnEnter (machine w_exit)) s).
    rewrite Hn. cbn [ran called]. rewrite app_nil_r.
    split; [apply called_alike, StatesOnExit_at_alike | apply StatesOnEnter_at_alike].
Qed.

End Unregistered.

(** ** What the status tells the caller *)

Section Status.
Context `{OwnerCode}.
Implicit Types (w : World) (s k : EnumClass) (dt : float).

Lemma bound_Some {F} (m : gmap EnumClass (option F)) k f :
  bound m k = Some f → m !! k = Some (Some f).
Proof. unfold bound. by destruct (m !! k) as [[] |]; intros; simplify_eq/=. Qed.

Lemma called_length (callback : CallbackOnEnter) w : length (called callback w) ≤ 1.
Proof. destruct callback; cbn; lia. Qed.

Lemma called_elem (callback : CallbackOnEnter) w c :
  c ∈ called callback w → ∃ f, callback = Some f ∧ c = CallVoid (Owner (machine w)) f.
Proof.
  destruct callback as [f |]; cbn; intros Hc.
  - apply list_elem_of_singleton in Hc. eauto.
  - by apply not_elem_of_nil in Hc.
Qed.

(** X1. The status of [ChangeState] tells the caller which of its three
    paths ran: [NullOwner] exactly when the owner is null,
    [StateUnchanged] exactly when there is an owner and the machine is
    already in the state asked for, [StateChanged] exactly when there is an
    owner and the state differs. Only the last path calls anything or
    touches the world. *)
Theorem ChangeState_status w s :
  let r := ChangeState s w in
  (result r = NullOwner ↔ Owner (machine w) = nullptr)
  ∧ (result r = StateUnchanged
     ↔ Owner (machine w) ≠ nullptr ∧ CurrentState (machine w) = s)
  ∧ (result r = StateChanged
     ↔ Owner (machine w) ≠ nullptr ∧ CurrentState (machine w) ≠ s)
  ∧ (result r ≠ StateChanged → calls r = [] ∧ after r = w).
Proof.
  intros r. subst r.
  destruct (decide (Owner (machine w) = nullptr)) as [Ho | Ho].
  { rewrite (ChangeState_null w s Ho), result_of, calls_of, after_of.
    intuition congruence. }
  destruct (decide (CurrentState (machine w) = s)) as [Hs | Hs].
  { rewrite (ChangeState_same w s Ho (eq_sym Hs)), result_of, calls_of, after_of.
    intuition congruence. }
  rewrite (ChangeState_other w s Ho Hs), result_of. intuition congruence.
Qed.

(** X2. [Tick] returns [TickSuccess] exactly when there is an owner and
    [StatesTick] holds a callback that is not null for the current state,
    and then it has made exactly one call, on the owner and with the
    [DeltaTime] it was given. It returns [NullOwner] in every other case,
    owner or not, and then it has called nothing. *)
Theorem Tick_status w dt :
  let r := Tick dt w in
  let callback := bound (StatesTick (machine w)) (CurrentState (machine w)) in
  (result r = TickSuccess ↔ Owner (machine w) ≠ nullptr ∧ is_Some callback)
  ∧ (result r = NullOwner ↔ Owner (machine w) = nullptr ∨ callback = None)
  ∧ (result r = TickSuccess
     ↔ ∃ f, callback = Some f ∧ calls r = [CallFloat (Owner (machine w)) f dt])
  ∧ (result r = NullOwner ↔ calls r = []).
Proof.
  intros r callback. subst r.
  destruct (decide (Owner (machine w) = nullptr)) as [Ho | Ho].
  { rewrite (Tick_null w dt Ho), result_of, calls_of.
    repeat split; try (intuition congruence).
    intros (f & _ & ?). congruence. }
  destruct callback as [f |] eqn:E; subst callback.
  - rewrite (Tick_bound w dt f Ho (bound_Some _ _ _ E)), result_of, calls_of.
    repeat split; try (intuition (eauto; congruence)).
  - rewrite (Tick_unbound w dt Ho E), result_of, calls_of.
    repeat split; try (intuition congruence).
    + intros [_ [f Hf]]. congruence.
    + intros (f & Hf & _). congruence.
Qed.

(** X3. [ChangeState] makes at most two calls, all of them to [void()]
    member functions and the first of them on the owner the machine had
    when it was called; [Tick] makes at most one call, to a [void(float)]
    member function, on that owner and with its own argument. *)
Theorem calls_discipline w s dt :
  (length (calls (ChangeState s w)) ≤ 2
   ∧ (∀ c, c ∈ calls (ChangeState s w) → ∃ this f, c = CallVoid this f)
   ∧ (∀ c, head (calls (ChangeState s w)) = Some c →
        ∃ f, c = CallVoid (Owner (machine w)) f))
  ∧ (length (calls (Tick dt w)) ≤ 1
     ∧ ∀ c, c ∈ calls (Tick dt w) → ∃ f, c = CallFloat (Owner (machine w)) f dt).
Proof.
  split.
  - destruct (decide (Owner (machine w) = nullptr)) as [Ho | Ho].
    { rewrite (ChangeState_null w s Ho), calls_of. cbn.
      split; [lia |]. split; [intros c Hc; by apply not_elem_of_nil in Hc | done]. }
    destruct (decide (CurrentState (machine w) = s)) as [Hs | Hs].
    { rewrite (ChangeState_same w s Ho (eq_sym Hs)), calls_of. cbn.
      split; [lia |]. split; [intros c Hc; by apply not_elem_of_nil in Hc | done]. }
    rewrite (ChangeState_other w s Ho Hs), calls_of.
    set (x := StatesOnExit_at (CurrentState (machine w)) w).
    set (e := StatesOnEnter_at s _).
    split; [| split].
    + rewrite length_app.
      pose proof (called_length (result x) (after x)).
      pose proof (called_length (result e) (after e)). lia.
    + intros c [Hc | Hc]%elem_of_app; apply called_elem in Hc as (f & _ & ->); eauto.
    + intros c Hc.
      assert (Eo : Owner (machine (after x)) = Owner (machine w)).
      { apply alike_Owner, StatesOnExit_at_alike. }
      destruct (result x) as [fx |] eqn:Ex; cbn in Hc.
      * exists fx. rewrite <- Eo. congruence.
      * destruct (result e) as [fe |] eqn:Ee; cbn in Hc; [| done].
        exists fe. simplify_eq. f_equal.
        subst e. rewrite (alike_Owner _ _ (StatesOnEnter_at_alike _ _)).
        cbn. exact Eo.
  - destruct (decide (Owner (machine w) = nullptr)) as [Ho | Ho].
    { rewrite (Tick_null w dt Ho), calls_of. cbn.
      split; [lia |]. intros c Hc. by apply not_elem_of_nil in Hc. }
    destruct (bound (StatesTick (machine w)) (CurrentState (machine w)))
      as [f |] eqn:E.
    + rewrite (Tick_bound w dt f Ho (bound_Some _ _ _ E)), calls_of. cbn.
      split; [lia |]. intros c Hc%list_elem_of_singleton. eauto.
    + rewrite (Tick_unbound w dt Ho E), calls_of. cbn.
      split; [lia |]. intros c Hc. by apply not_elem_of_nil in Hc.
Qed.

End Status.

(** ** Registering, then using *)

Section Registering.
Context `{OwnerCode}.
Implicit Types (w : World) (s k : EnumClass) (dt : float).

Lemma subscript_insert_ne {F} (m : gmap EnumClass (option F)) k j v :
  j ≠ k →
  subscript (<[k := v]> m) j = ((subscript m j).1, <[k := v]> (subscript m j).2).
Proof.
  intros Hne. unfold subscript. rewrite lookup_insert_ne by done.
  destruct (m !! j); [done |]. cbn. by rewrite insert_insert_ne.
Qed.

Lemma StatesOnExit_at_StatesOnEnter k w :
  StatesOnEnter (machine (after (StatesOnExit_at k w))) = StatesOnEnter (machine w).
Proof. unfold after, StatesOnExit_at. by destruct (subscript _ _). Qed.

(** X4. Registrations of two different states commute: the machine ends
    the same whichever is made first. *)
Theorem RegisterState_commutes w (a b : EnumClass) (ea eb : CallbackOnEnter)
    (ta tb : CallbackOnUpdate) (xa xb : CallbackOnExit) :
  a ≠ b →
  after (RegisterState a ea ta xa (after (RegisterState b eb tb xb w)))
  = after (RegisterState b eb tb xb (after (RegisterState a ea ta xa w))).
Proof.
  intros Hne. rewrite !RegisterState_after. cbn.
  by rewrite (insert_insert_ne (StatesOnEnter (machine w)) a b),
    (insert_insert_ne (StatesTick (machine w)) a b),
    (insert_insert_ne (StatesOnExit (machine w)) a b).
Qed.

(** X5. A registration for the current state decides the next [Tick] of a
    machine with an owner: with an update callback [f] it calls [f] once
    with [DeltaTime] and returns [TickSuccess]; with the null pointer it
    calls nothing, returns [NullOwner] and leaves the world exactly as the
    registration left it, whatever was registered before. *)
Theorem RegisterState_then_Tick w s (e : CallbackOnEnter) (t : CallbackOnUpdate)
    (x : CallbackOnExit) dt :
  Owner (machine w) ≠ nullptr → CurrentState (machine w) = s →
  let w' := after (RegisterState s e t x w) in
  let r := Tick dt w' in
  match t with
  | Some f =>
      result r = TickSuccess
      ∧ calls r = [CallFloat (Owner (machine w)) f dt]
      ∧ after r = body_float f (Owner (machine w)) dt w'
  | None => result r = NullOwner ∧ calls r = [] ∧ after r = w'
  end.
Proof.
  intros Ho Hs w' r.
  assert (Ho' : Owner (machine w') ≠ nullptr) by done.
  assert (Hl : StatesTick (machine w') !! CurrentState (machine w') = Some t).
  { subst w'. rewrite RegisterState_after. cbn. rewrite Hs. apply lookup_insert_eq. }
  destruct t as [f |]; subst r.
  - by rewrite (Tick_bound w' dt f Ho' Hl).
  - rewrite (Tick_unbound w' dt Ho'); [| unfold bound; by rewrite Hl].
    rewrite result_of, calls_of, after_of. split; [done |]. split; [done |].
    unfold after, StatesTick_at. by rewrite (subscript_present _ _ _ Hl).
Qed.

(** X6. A registration decides the next genuine [ChangeState] of a machine
    with an owner. Registered for the state being left, its exit callback
    is the first thing called. Registered for the state being entered, when
    the state being left has no exit callback, its enter callback is the
    only thing called, and it runs with [CurrentState] already set and the
    memory untouched. *)
Theorem RegisterState_then_ChangeState w s k (e : CallbackOnEnter)
    (t : CallbackOnUpdate) (x : CallbackOnExit) :
  Owner (machine w) ≠ nullptr → CurrentState (machine w) ≠ s →
  let old := CurrentState (machine w) in
  let w' := after (RegisterState k e t x w) in
  let r := ChangeState s w' in
  (k = old → ∃ rest, calls r = called x w ++ rest ∧ length rest ≤ 1)
  ∧ (k = s → bound (StatesOnExit (machine w)) old = None →
       let w_set := on_machine (set_CurrentState s) (after (StatesOnExit_at old w')) in
       calls r = called e w
       ∧ after r = ran e w_set
       ∧ memory w_set = memory w
       ∧ CurrentState (machine w_set) = s).
Proof.
  intros Ho Hs old w' r.
  assert (Ho' : Owner (machine w') ≠ nullptr) by done.
  assert (Hs' : CurrentState (machine w') ≠ s) by done.
  subst r. rewrite (ChangeState_other w' s Ho' Hs'), calls_of, after_of.
  change (CurrentState (machine w')) with old.
  rewrite StatesOnExit_at_result.
  assert (Eo : Owner (machine (after (StatesOnExit_at old w'))) = Owner (machine w)).
  { by rewrite (alike_Owner _ _ (StatesOnExit_at_alike old w')). }
  split.
  - intros ->.
    assert (Ex : bound (StatesOnExit (machine w')) old = x).
    { subst w'. rewrite RegisterState_after. cbn. rewrite bound_insert.
      by rewrite decide_True. }
    rewrite Ex. eexists. split; [| apply called_length].
    f_equal. by apply called_Owner.
  - intros -> Hx w_set.
    assert (Ex : bound (StatesOnExit (machine w')) old = None).
    { subst w'. rewrite RegisterState_after. cbn. rewrite bound_insert.
      by rewrite decide_False. }
    rewrite Ex. cbn [ran called app]. fold w_set.
    assert (Hl : StatesOnEnter (machine w_set) !! s = Some e).
    { subst w_set. unfold after, StatesOnExit_at. destruct (subscript _ _).
      cbn. apply lookup_insert_eq. }
    assert (He : StatesOnEnter_at s w_set = (e, w_set, [])).
    { unfold StatesOnEnter_at. rewrite (subscript_present _ _ _ Hl).
      subst w_set. unfold after, StatesOnExit_at. by destruct (subscript _ _). }
    rewrite He, result_of, after_of.
    split; [apply called_Owner; subst w_set; cbn; exact Eo |]. split; [done |].
    subst w_set. unfold after, StatesOnExit_at. by destruct (subscript _ _).
Qed.

(** X7. A registration for a state other than the current one does not
    change what the next [Tick] returns or calls, and when that [Tick]
    calls nothing the two can be done in either order. Nor does it change
    what the next [ChangeState] returns; and unless it is for the state
    being entered, the first call [ChangeState] makes is the same. *)
Theorem RegisterState_elsewhere w k (e : CallbackOnEnter) (t : CallbackOnUpdate)
    (x : CallbackOnExit) dt s :
  CurrentState (machine w) ≠ k →
  let w' := after (RegisterState k e t x w) in
  (result (Tick dt w') = result (Tick dt w)
   ∧ calls (Tick dt w') = calls (Tick dt w)
   ∧ (result (Tick dt w) = NullOwner →
        after (Tick dt w') = after (RegisterState k e t x (after (Tick dt w)))))
  ∧ (result (ChangeState s w') = result (ChangeState s w)
     ∧ (s ≠ k → head (calls (ChangeState s w')) = head (calls (ChangeState s w)))).
Proof.
  intros Hk w'. set (old := CurrentState (machine w)).
  assert (Et : bound (StatesTick (machine w')) old = bound (StatesTick (machine w)) old).
  { subst w'. rewrite RegisterState_after. cbn. rewrite bound_insert.
    by rewrite decide_False. }
  assert (Ex : bound (StatesOnExit (machine w')) old = bound (StatesOnExit (machine w)) old).
  { subst w'. rewrite RegisterState_after. cbn. rewrite bound_insert.
    by rewrite decide_False. }
  destruct (decide (Owner (machine w) = nullptr)) as [Ho | Ho].
  { rewrite (Tick_null w dt Ho), (Tick_null w' dt Ho),
      (ChangeState_null w s Ho), (ChangeState_null w' s Ho). done. }
  assert (Ho' : Owner (machine w') ≠ nullptr) by done.
  split.
  - destruct (bound (StatesTick (machine w)) old) as [f |] eqn:E.
    + rewrite (Tick_bound w dt f Ho (bound_Some _ _ _ E)),
        (Tick_bound w' dt f Ho' (bound_Some _ _ _ Et)).
      rewrite !result_of, !calls_of. done.
    + rewrite (Tick_unbound w dt Ho E), (Tick_unbound w' dt Ho' Et).
      rewrite !result_of, !calls_of, !after_of.
      split; [done |]. split; [done |]. intros _.
      rewrite RegisterState_after. unfold after, StatesTick_at.
      change (CurrentState (machine w')) with old.
      change (StatesTick (machine w')) with (<[k := t]> (StatesTick (machine w))).
      rewrite (subscript_insert_ne _ k old t Hk).
      fold old. by destruct (subscript (StatesTick (machine w)) old).
  - destruct (decide (old = s)) as [Hs | Hs].
    { rewrite (ChangeState_same w s Ho (eq_sym Hs)), (ChangeState_same w' s Ho');
        done. }
    assert (Hs' : CurrentState (machine w') ≠ s) by done.
    rewrite (ChangeState_other w s Ho Hs), (ChangeState_other w' s Ho' Hs').
    rewrite !result_of, !calls_of. split; [done |]. intros Hsk.
    change (CurrentState (machine w')) with old. fold old.
    rewrite !StatesOnExit_at_result, Ex, !head_app.
    assert (Eo : Owner (machine (after (StatesOnExit_at old w')))
                 = Owner (machine (after (StatesOnExit_at old w)))).
    { by rewrite !(alike_Owner _ _ (StatesOnExit_at_alike old _)). }
    destruct (bound (StatesOnExit (machine w)) old) as [fx |]; cbn [called ran head].
    { by rewrite Eo. }
    rewrite !StatesOnEnter_at_result.
    assert (Ee : bound (StatesOnEnter (machine (on_machine (set_CurrentState s)
                   (after (StatesOnExit_at old w'))))) s
                 = bound (StatesOnEnter (machine (on_machine (set_CurrentState s)
                   (after (StatesOnExit_at old w))))) s).
    { cbn [machine on_machine set_CurrentState StatesOnEnter].
      rewrite !StatesOnExit_at_StatesOnEnter.
      subst w'. rewrite RegisterState_after. cbn. rewrite bound_insert.
      by rewrite decide_False. }
    rewrite Ee. f_equal. apply called_Owner.
    rewrite !(alike_Owner _ _ (StatesOnEnter_at_alike s _)). cbn. exact Eo.
Qed.

End Registering.

(** ** What the machine leaves alone *)

Section Frames.
Context `{OwnerCode}.
Implicit Types (w : World) (s k : EnumClass) (dt : float).

Lemma subscript_subseteq {F} (m : gmap EnumClass (option F)) k :
  m ⊆ (subscript m k).2.
Proof.
  unfold subscript. destruct (m !! k) eqn:E; [done |]. by apply insert_subseteq.
Qed.

Lemma subscript_again {F} (m : gmap EnumClass (option F)) k :
  subscript (subscript m k).2 k = subscript m k.
Proof.
  unfold subscript at 2 3. destruct (m !! k) eqn:E; cbn.
  - by apply subscript_present.
  - apply subscript_present, lookup_insert_eq.
Qed.

Lemma StatesTick_at_again k w :
  StatesTick_at k (after (StatesTick_at k w)) = StatesTick_at k w.
Proof.
  unfold StatesTick_at at 1. unfold after at 1 2.
  pose proof (subscript_again (StatesTick (machine w)) k) as Ha.
  unfold StatesTick_at. destruct (subscript (StatesTick (machine w)) k) as [v m].
  cbn in *. by rewrite Ha.
Qed.

#[global] Instance silent_alike : Proper ((≡) ==> iff) silent.
Proof.
  assert (Hi : ∀ w w', w ≡ w' → silent w → silent w').
  { intros w w' [] Hs k. destruct (Hs k) as (? & ? & ?).
    repeat split; congruence. }
  intros w w' Hw. split; apply Hi; [done | by symmetry].
Qed.

Lemma silent_set_CurrentState w s :
  silent w → silent (on_machine (set_CurrentState s) w).
Proof. intros Hs k. apply Hs. Qed.

Lemma silent_construct (owner : ptr) (emptyState : EnumClass) (mem : Memory) :
  silent (mkWorld mem (construct owner emptyState)).
Proof. intros k. unfold bound. cbn. by rewrite !lookup_empty. Qed.

(** A genuine or trivial transition of a machine with no callbacks. *)
Lemma ChangeState_silent w s :
  silent w → Owner (machine w) ≠ nullptr →
  calls (ChangeState s w) = []
  ∧ after (ChangeState s w) ≡ on_machine (set_CurrentState s) w.
Proof.
  intros Hsil Ho.
  destruct (decide (CurrentState (machine w) = s)) as [Hs | Hs].
  { rewrite (ChangeState_same w s Ho (eq_sym Hs)), calls_of, after_of.
    split; [done |]. destruct w as [mem []]. cbn in Hs. by subst s. }
  rewrite (ChangeState_other w s Ho Hs), calls_of, after_of.
  rewrite StatesOnExit_at_result.
  destruct (Hsil (CurrentState (machine w))) as (_ & _ & ->). cbn [ran called app].
  set (w_set := on_machine (set_CurrentState s) _).
  assert (Hl : w_set ≡ on_machine (set_CurrentState s) w).
  { subst w_set. apply set_CurrentState_alike, StatesOnExit_at_alike. }
  rewrite StatesOnEnter_at_result, (alike_StatesOnEnter _ _ Hl).
  destruct (silent_set_CurrentState w s Hsil s) as (-> & _ & _). cbn [ran called].
  split; [done |]. by rewrite StatesOnEnter_at_alike.
Qed.

Lemma ChangeState_keeps_Owner w s :
  keeps_Owner → Owner (machine (after (ChangeState s w))) = Owner (machine w).
Proof.
  intros Hk.
  assert (Hr : ∀ (cb : CallbackOnEnter) v, Owner (machine (ran cb v)) = Owner (machine v)).
  { intros [f |] v; [apply Hk | done]. }
  destruct (decide (Owner (machine w) = nullptr)) as [Ho | Ho].
  { by rewrite (ChangeState_null w s Ho). }
  destruct (decide (CurrentState (machine w) = s)) as [Hs | Hs].
  { by rewrite (ChangeState_same w s Ho (eq_sym Hs)). }
  rewrite (ChangeState_other w s Ho Hs), after_of, Hr.
  rewrite (alike_Owner _ _ (StatesOnEnter_at_alike _ _)). cbn. rewrite Hr.
  apply alike_Owner, StatesOnExit_at_alike.
Qed.

Lemma Tick_keeps_Owner w dt :
  keeps_Owner_float → Owner (machine (after (Tick dt w))) = Owner (machine w).
Proof.
  intros Hk.
  destruct (decide (Owner (machine w) = nullptr)) as [Ho | Ho].
  { by rewrite (Tick_null w dt Ho). }
  destruct (bound (StatesTick (machine w)) (CurrentState (machine w)))
    as [f |] eqn:E.
  - rewrite (Tick_bound w dt f Ho (bound_Some _ _ _ E)), after_of. apply Hk.
  - rewrite (Tick_unbound w dt Ho E), after_of.
    apply alike_Owner, StatesTick_at_alike.
Qed.


(** X9. Whenever [Tick] returns [NullOwner], for want of an owner or of a
    callback, it has called nothing and changed nothing but, at most, one
    new null entry in [StatesTick]: the memory, the owner, the current
    state and the other two maps are as they were, and [StatesTick] is
    either as it was or, when there is an owner and the current state had
    no entry, as it was with a null entry for the current state, so it has
    at most one entry more and every old entry is still there. A [Tick]
    right after it returns [NullOwner] again and changes nothing at all. *)
Theorem Tick_NullOwner_frame w dt dt' :
  result (Tick dt w) = NullOwner →
  let old := CurrentState (machine w) in
  let w' := after (Tick dt w) in
  (calls (Tick dt w) = []
   ∧ memory w' = memory w
   ∧ Owner (machine w') = Owner (machine w)
   ∧ CurrentState (machine w') = CurrentState (machine w)
   ∧ StatesOnEnter (machine w') = StatesOnEnter (machine w)
   ∧ StatesOnExit (machine w') = StatesOnExit (machine w)
   ∧ StatesTick (machine w) ⊆ StatesTick (machine w'))
  ∧ (StatesTick (machine w') = StatesTick (machine w)
     ∨ (Owner (machine w) ≠ nullptr
        ∧ StatesTick (machine w) !! old = None
        ∧ StatesTick (machine w') = <[old := None]> (StatesTick (machine w))))
  ∧ size (StatesTick (machine w')) ≤ S (size (StatesTick (machine w)))
  ∧ Tick dt' w' = (NullOwner, w', []).
Proof.
  intros Hr old0 w'. subst w' old0.
  destruct (decide (Owner (machine w) = nullptr)) as [Ho | Ho].
  { rewrite (Tick_null w dt Ho), calls_of, after_of. split; [done |].
    split; [by left |]. split; [lia |]. by apply Tick_null. }
  destruct (bound (StatesTick (machine w)) (CurrentState (machine w)))
    as [f |] eqn:E.
  { by rewrite (Tick_bound w dt f Ho (bound_Some _ _ _ E)) in Hr. }
  rewrite (Tick_unbound w dt Ho E), calls_of, after_of.
  set (old := CurrentState (machine w)).
  set (w' := after (StatesTick_at old w)).
  assert (Hparts : memory w' = memory w
                   ∧ Owner (machine w') = Owner (machine w)
                   ∧ CurrentState (machine w') = old
                   ∧ StatesOnEnter (machine w') = StatesOnEnter (machine w)
                   ∧ StatesOnExit (machine w') = StatesOnExit (machine w)
                   ∧ StatesTick (machine w') = (subscript (StatesTick (machine w)) old).2).
  { subst w'. unfold after, StatesTick_at. by destruct (subscript _ _). }
  destruct Hparts as (Hm & Eo & Ec & He & Hx & Ht).
  split; [| split; [| split]].
  - repeat split; try done. rewrite Ht. apply subscript_subseteq.
  - rewrite Ht. destruct (StatesTick (machine w) !! old) as [v |] eqn:El.
    + left. by rewrite (subscript_present _ _ _ El).
    + right. by rewrite (subscript_absent _ _ El).
  - rewrite Ht. destruct (StatesTick (machine w) !! old) as [v |] eqn:El.
    + rewrite (subscript_present _ _ _ El). cbn. lia.
    + rewrite (subscript_absent _ _ El). cbn.
      rewrite (map_size_insert_None _ _ _ El). lia.
  - assert (Ho' : Owner (machine w') ≠ nullptr) by congruence.
    assert (E' : bound (StatesTick (machine w')) (CurrentState (machine w')) = None).
    { rewrite Ec, Ht, subscript_bound. exact E. }
    rewrite (Tick_unbound w' dt' Ho' E'), Ec.
    subst w'. by rewrite StatesTick_at_again.
Qed.

(** X10. A machine on which no callback is registered, such as a newly
    constructed one, is a plain state variable: [ChangeState] and [Tick]
    call nothing, leave the memory and the owner alone and keep the machine
    without callbacks; [Tick] returns [NullOwner]; and with an owner
    [ChangeState(s)] leaves the machine in state [s]. *)
Theorem silent_machine w s dt :
  silent w →
  let c := ChangeState s w in
  let t := Tick dt w in
  (calls c = []
   ∧ silent (after c)
   ∧ memory (after c) = memory w
   ∧ Owner (machine (after c)) = Owner (machine w)
   ∧ (Owner (machine w) ≠ nullptr → CurrentState (machine (after c)) = s))
  ∧ (result t = NullOwner ∧ calls t = [] ∧ silent (after t) ∧ after t ≡ w)
  ∧ (∀ owner emptyState mem, silent (mkWorld mem (construct owner emptyState))).
Proof.
  intros Hsil c t. split; [| split].
  - subst c. destruct (decide (Owner (machine w) = nullptr)) as [Ho | Ho].
    { by rewrite (ChangeState_null w s Ho), calls_of, after_of. }
    destruct (ChangeState_silent w s Hsil Ho) as (Hc & Ha).
    split; [done |]. split; [| split; [| split]].
    + rewrite Ha. by apply silent_set_CurrentState.
    + by rewrite (alike_memory _ _ Ha).
    + by rewrite (alike_Owner _ _ Ha).
    + intros _. by rewrite (alike_CurrentState _ _ Ha).
  - subst t. destruct (decide (Owner (machine w) = nullptr)) as [Ho | Ho].
    { by rewrite (Tick_null w dt Ho), result_of, calls_of, after_of. }
    destruct (Hsil (CurrentState (machine w))) as (_ & E & _).
    rewrite (Tick_unbound w dt Ho E), result_of, calls_of, after_of.
    split; [done |]. split; [done |].
    split; [by rewrite StatesTick_at_alike | apply StatesTick_at_alike].
  - intros owner emptyState mem. apply silent_construct.
Qed.

(** X11. On a machine with an owner and no callbacks, going to another
    state and back leaves a world that reads as the one before: the same
    memory, owner and current state, and no callback for any state. *)
Theorem ChangeState_there_and_back w s :
  silent w → Owner (machine w) ≠ nullptr →
  let old := CurrentState (machine w) in
  let there := ChangeState s w in
  let back := ChangeState old (after there) in
  (old ≠ s → result there = StateChanged ∧ result back = StateChanged)
  ∧ calls there ++ calls back = []
  ∧ after back ≡ w.
Proof.
  intros Hsil Ho old there back.
  destruct (ChangeState_silent w s Hsil Ho) as (Hc & Ha). fold there in Hc, Ha.
  assert (Hsil' : silent (after there)).
  { rewrite Ha. by apply silent_set_CurrentState. }
  assert (Ho' : Owner (machine (after there)) ≠ nullptr).
  { by rewrite (alike_Owner _ _ Ha). }
  destruct (ChangeState_silent (after there) old Hsil' Ho') as (Hc' & Ha').
  fold back in Hc', Ha'. split; [| split].
  - intros Hs. subst there back. split.
    + by rewrite (ChangeState_other w s Ho Hs).
    + rewrite (ChangeState_other (after (ChangeState s w)) old Ho'); [done |].
      rewrite (alike_CurrentState _ _ Ha). cbn. congruence.
  - by rewrite Hc, Hc'.
  - rewrite Ha', Ha. destruct w as [mem []]. by split.
Qed.

(** X12. The machine never rebinds its owner: when the owner's own member
    functions leave [Owner] alone, so do [ChangeState], [Tick] and
    [RegisterState], and every call [ChangeState] makes is on the owner the
    machine had when it was called. *)
Theorem Owner_is_kept w s dt k (e : CallbackOnEnter) (t : CallbackOnUpdate)
    (x : CallbackOnExit) :
  keeps_Owner → keeps_Owner_float →
  Owner (machine (after (ChangeState s w))) = Owner (machine w)
  ∧ Owner (machine (after (Tick dt w))) = Owner (machine w)
  ∧ Owner (machine (after (RegisterState k e t x w))) = Owner (machine w)
  ∧ (∀ c, c ∈ calls (ChangeState s w) → ∃ f, c = CallVoid (Owner (machine w)) f).
Proof.
  intros Hk Hf. split; [by apply ChangeState_keeps_Owner |].
  split; [by apply Tick_keeps_Owner |]. split; [done |].
  destruct (decide (Owner (machine w) = nullptr)) as [Ho | Ho].
  { rewrite (ChangeState_null w s Ho), calls_of. intros c Hc.
    by apply not_elem_of_nil in Hc. }
  destruct (decide (CurrentState (machine w) = s)) as [Hs | Hs].
  { rewrite (ChangeState_same w s Ho (eq_sym Hs)), calls_of. intros c Hc.
    by apply not_elem_of_nil in Hc. }
  rewrite (ChangeState_other w s Ho Hs), calls_of.
  set (wx := after (StatesOnExit_at (CurrentState (machine w)) w)).
  assert (Ex : Owner (machine wx) = Owner (machine w)).
  { apply alike_Owner, StatesOnExit_at_alike. }
  intros c [Hc | Hc]%elem_of_app; apply called_elem in Hc as (f & Hf' & ->);
    exists f; f_equal.
  - exact Ex.
  - rewrite (alike_Owner _ _ (StatesOnEnter_at_alike _ _)). cbn.
    destruct (result (StatesOnExit_at (CurrentState (machine w)) w)) as [fx |];
      cbn; [rewrite Hk |]; exact Ex.
Qed.

(** X13. What the callbacks find. With an owner and a genuine transition,
    the exit callback runs in a world that reads as the caller's, so
    [GetCurrentState()] called from it still returns the old state; the
    enter callback runs in the world the exit callback left, with the new
    state as current state, whatever the exit callback did to the current
    state. *)
Theorem callbacks_find w s :
  Owner (machine w) ≠ nullptr → CurrentState (machine w) ≠ s →
  let old := CurrentState (machine w) in
  let callbackExit := bound (StatesOnExit (machine w)) old in
  let w_exit := after (StatesOnExit_at old w) in
  let w_set := on_machine (set_CurrentState s) (ran callbackExit w_exit) in
  let callbackEnter := bound (StatesOnEnter (machine w_set)) s in
  let w_enter := after (StatesOnEnter_at s w_set) in
  after (ChangeState s w) = ran callbackEnter w_enter
  ∧ (w_exit ≡ w ∧ result (GetCurrentState w_exit) = old)
  ∧ (w_enter ≡ w_set
     ∧ result (GetCurrentState w_enter) = s
     ∧ memory w_enter = memory (ran callbackExit w_exit)).
Proof.
  intros Ho Hs old callbackExit w_exit w_set callbackEnter w_enter.
  rewrite (ChangeState_other w s Ho Hs), after_of.
  fold old. rewrite StatesOnExit_at_result. fold callbackExit w_exit w_set.
  rewrite StatesOnEnter_at_result. fold callbackEnter w_enter.
  assert (Hx : w_exit ≡ w) by apply StatesOnExit_at_alike.
  assert (He : w_enter ≡ w_set) by apply StatesOnEnter_at_alike.
  split; [done |]. split; [split; [done | apply (alike_CurrentState _ _ Hx)] |].
  split; [done |]. split; [apply (alike_CurrentState _ _ He) |].
  apply (alike_memory _ _ He).
Qed.

End Frames.

(** ** The concrete owner *)

Import Entity.

Lemma note_alike (r : Ran) : Proper ((≡) ==> (≡)) (note r).
Proof.
  intros w w' [Hm Ho Hc He Ht Hx]. split; cbn; [by rewrite Hm | done ..].
Qed.

(** The entity's callbacks reach the machine through [ChangeState] only, so
    they cannot tell like worlds apart, however deep they nest. *)
Lemma entity_body_alike (depth : nat) (f : EntityVoidFn) (this : ptr) :
  Proper ((≡) ==> (≡)) (entity_body depth f this).
Proof.
  revert f this. induction depth as [| d IH]; intros f this w w' Hw.
  - destruct f; by apply note_alike.
  - destruct f; try by apply note_alike.
    cbn [entity_body].
    apply (ChangeState_alike
             (H0 := Build_OwnerCode entity (entity_body d) entity_body_float)).
    + exact IH.
    + by apply note_alike.
Qed.

Lemma entity_oblivious : oblivious (H0 := entity_code).
Proof. intros f this. apply entity_body_alike. Qed.

(** The scenario: register [Idle] and [Moving], go to [Moving], tick, go to
    [Moving] again, go back to [Idle]. *)
Example scenario :
  let r1 := ChangeState Moving registered in
  let r2 := Tick half (after r1) in
  let r3 := ChangeState Moving (after r2) in
  let r4 := ChangeState Idle (after r3) in
  (result r1, calls r1, CurrentState (machine (after r1)))
    = (StateChanged, [CallVoid 1%N onExitIdle; CallVoid 1%N onEnterMoving], Moving)
  ∧ (result r2, calls r2) = (TickSuccess, [CallFloat 1%N onTickMoving half])
  ∧ (result r3, calls r3) = (StateUnchanged, [])
  ∧ (result r4, calls r4, CurrentState (machine (after r4)))
    = (StateChanged, [CallVoid 1%N onEnterIdle], Idle)
  ∧ memory (after r4)
    = [RanVoid onExitIdle; RanVoid onEnterMoving; RanFloat onTickMoving half;
       RanVoid onEnterIdle].
Proof. vm_compute. done. Qed.

(** Allowing deeper nesting changes nothing there. *)
Example depth_one_is_enough :
  ChangeState (H0 := Build_OwnerCode entity (entity_body 5) entity_body_float)
    Blocked registered
  = ChangeState Blocked registered.
Proof. vm_compute. reflexivity. Qed.

Lemma ChangeState_same_state_witness :
  Owner (machine registered) ≠ nullptr
  ∧ Idle = CurrentState (machine registered)
  ∧ result (ChangeState Idle registered) = StateUnchanged
  ∧ calls (ChangeState Idle registered) = []
  ∧ after (ChangeState Idle registered) = registered.
Proof.
  assert (Ho : Owner (machine registered) ≠ nullptr) by (vm_compute; discriminate).
  assert (Hs : Idle = CurrentState (machine registered)) by reflexivity.
  destruct (ChangeState_same_state registered Idle Ho Hs) as (Hr & Hc & Ha & _).
  repeat split; assumption.
Defined.

Lemma Tick_without_callback_witness :
  Owner (machine fresh) ≠ nullptr
  ∧ StatesTick (machine fresh) !! CurrentState (machine fresh) = None
  ∧ result (Tick half fresh) = NullOwner
  ∧ calls (Tick half fresh) = [].
Proof.
  assert (Ho : Owner (machine fresh) ≠ nullptr) by (vm_compute; discriminate).
  assert (Hn : StatesTick (machine fresh) !! CurrentState (machine fresh) = None)
    by reflexivity.
  destruct (Tick_without_callback fresh half Ho (or_introl Hn)) as (Hr & Hc & _).
  repeat split; assumption.
Defined.

Lemma without_owner_witness :
  Owner (machine orphan) = nullptr
  ∧ ChangeState Moving orphan = (NullOwner, orphan, [])
  ∧ Tick half orphan = (NullOwner, orphan, []).
Proof.
  assert (Ho : Owner (machine orphan) = nullptr) by reflexivity.
  split; [exact Ho | exact (without_owner orphan Moving half Ho)].
Defined.

Lemma Tick_with_callback_witness :
  let w := after (ChangeState Moving registered) in
  Owner (machine w) ≠ nullptr
  ∧ StatesTick (machine w) !! CurrentState (machine w) = Some (Some onTickMoving)
  ∧ result (Tick half w) = TickSuccess
  ∧ calls (Tick half w) = [CallFloat 1%N onTickMoving half]
  ∧ memory (after (Tick half w))
    = [RanVoid onExitIdle; RanVoid onEnterMoving; RanFloat onTickMoving half].
Proof.
  intros w.
  assert (Ho : Owner (machine w) ≠ nullptr) by (vm_compute; discriminate).
  assert (Hf : StatesTick (machine w) !! CurrentState (machine w)
               = Some (Some onTickMoving)) by (vm_compute; reflexivity).
  destruct (Tick_with_callback w half onTickMoving Ho Hf) as (Hr & Hc & Ha).
  split; [exact Ho |]. split; [exact Hf |]. split; [exact Hr |].
  split; [exact Hc |]. rewrite Ha. vm_compute. reflexivity.
Defined.

Lemma ChangeState_transition_witness :
  Owner (machine registered) ≠ nullptr
  ∧ CurrentState (machine registered) ≠ Moving
  ∧ result (ChangeState Moving registered) = StateChanged
  ∧ calls (ChangeState Moving registered)
    = [CallVoid 1%N onExitIdle; CallVoid 1%N onEnterMoving]
  ∧ result (GetCurrentState (after (ChangeState Moving registered))) = Moving.
Proof.
  assert (Ho : Owner (machine registered) ≠ nullptr) by (vm_compute; discriminate).
  assert (Hs : CurrentState (machine registered) ≠ Moving) by (vm_compute; discriminate).
  destruct (ChangeState_transition registered Moving Ho Hs) as (Hr & Hc & _ & _ & Hg).
  split; [exact Ho |]. split; [exact Hs |]. split; [exact Hr |]. split.
  - rewrite Hc. vm_compute. reflexivity.
  - apply Hg. intros f Hf. vm_compute in Hf. injection Hf as <-.
    vm_compute. reflexivity.
Defined.

(** C1, as claimed, fails when the enter callback calls back into the
    machine: [ChangeState(Blocked)] returns [StateChanged], and the machine
    is in [Idle], where [onEnterBlocked] has sent it. *)
Lemma ChangeState_reentered :
  Owner (machine registered) ≠ nullptr
  ∧ CurrentState (machine registered) ≠ Blocked
  ∧ result (ChangeState Blocked registered) = StateChanged
  ∧ calls (ChangeState Blocked registered)
    = [CallVoid 1%N onExitIdle; CallVoid 1%N onEnterBlocked]
  ∧ result (GetCurrentState (after (ChangeState Blocked registered))) = Idle
  ∧ result (GetCurrentState (after (ChangeState Blocked registered))) ≠ Blocked.
Proof. vm_compute. repeat split; discriminate. Qed.

Lemma ChangeState_unregistered_witness :
  let from := ChangeState Blocked ticked in
  let from' := ChangeState Blocked (after (RegisterState Idle None None None ticked)) in
  let to := ChangeState Idle visited in
  let to' := ChangeState Idle (after (RegisterState Idle None None None visited)) in
  (Owner (machine ticked) ≠ nullptr
   ∧ without_callback Idle ticked
   ∧ ¬ unregistered Idle ticked
   ∧ oblivious
   ∧ result from = result from'
   ∧ result from = StateChanged
   ∧ calls from = calls from'
   ∧ CurrentState (machine (after from)) = CurrentState (machine (after from'))
   ∧ calls from = [CallVoid 1%N onEnterBlocked])
  ∧ (Owner (machine visited) ≠ nullptr
     ∧ without_callback Idle visited
     ∧ ¬ unregistered Idle visited
     ∧ result to = result to'
     ∧ result to = StateChanged
     ∧ calls to = calls to'
     ∧ CurrentState (machine (after to)) = CurrentState (machine (after to'))
     ∧ calls to = []).
Proof.
  intros from from' to to'. split.
  - assert (Ho : Owner (machine ticked) ≠ nullptr) by (vm_compute; discriminate).
    assert (Hu : without_callback Idle ticked) by (vm_compute; repeat split).
    destruct (ChangeState_unregistered ticked Blocked Idle Ho Hu)
      as (Hr & Hch & Hsame & Hfrom & _).
    destruct (Hsame entity_oblivious) as (Hc & _ & Hs).
    split; [exact Ho |]. split; [exact Hu |].
    split; [intros (_ & Ht & _); vm_compute in Ht; discriminate |].
    split; [exact entity_oblivious |].
    split; [exact Hr |]. split; [apply Hch; vm_compute; discriminate |].
    split; [exact Hc |]. split; [exact Hs |].
    destruct Hfrom as [Hcalls _]; [reflexivity | discriminate |].
    etransitivity; [exact Hcalls | vm_compute; reflexivity].
  - assert (Ho : Owner (machine visited) ≠ nullptr) by (vm_compute; discriminate).
    assert (Hu : without_callback Idle visited) by (vm_compute; repeat split).
    destruct (ChangeState_unregistered visited Idle Idle Ho Hu)
      as (Hr & Hch & Hsame & _ & Hto).
    destruct (Hsame entity_oblivious) as (Hc & _ & Hs).
    split; [exact Ho |]. split; [exact Hu |].
    split; [intros (_ & Ht & _); vm_compute in Ht; discriminate |].
    split; [exact Hr |]. split; [apply Hch; vm_compute; discriminate |].
    split; [exact Hc |]. split; [exact Hs |].
    destruct Hto as [Hcalls _];
      [reflexivity | vm_compute; discriminate | vm_compute; reflexivity |].
    etransitivity; [exact Hcalls | vm_compute; reflexivity].
Defined.

Lemma lookups_insert_null_entries_witness :
  Owner (machine fresh) ≠ nullptr
  ∧ map_to_list (StatesTick (machine (after (Tick half fresh)))) = [(Idle, None)]
  ∧ after (ChangeState Moving fresh)
    = mkWorld [] (mkTStateMachine 1%N Moving {[Moving := None]} ∅ {[Idle := None]}).
Proof.
  assert (Ho : Owner (machine fresh) ≠ nullptr) by (vm_compute; discriminate).
  destruct (lookups_insert_null_entries fresh Moving half Ho) as (Ht & Hc).
  split; [exact Ho |]. split.
  - destruct Ht as (Ha & _); [reflexivity |]. rewrite Ha. vm_compute. reflexivity.
  - destruct Hc as (_ & _ & Hb); [discriminate |].
    destruct Hb as (Ha & _); [reflexivity | reflexivity |].
    rewrite Ha. vm_compute. reflexivity.
Defined.


(** The entity's callbacks write to the memory and call [ChangeState]; none
    of this reaches [Owner]. *)
Lemma entity_body_keeps_Owner (depth : nat) (f : EntityVoidFn) (this : ptr)
    (w : World) :
  Owner (machine (entity_body depth f this w)) = Owner (machine w).
Proof.
  revert f this w. induction depth as [| d IH]; intros f this w.
  - by destruct f.
  - destruct f; try done. cbn [entity_body].
    by rewrite (ChangeState_keeps_Owner
                  (H0 := Build_OwnerCode entity (entity_body d) entity_body_float)).
Qed.

Lemma entity_keeps_Owner : keeps_Owner (H0 := entity_code).
Proof. intros f this w. apply entity_body_keeps_Owner. Qed.

Lemma entity_keeps_Owner_float : keeps_Owner_float (H0 := entity_code).
Proof. by intros f this dt w. Qed.


Lemma RegisterState_commutes_witness :
  Idle ≠ Moving
  ∧ after (RegisterState Idle (Some onEnterIdle) (Some onTickIdle) (Some onExitIdle)
      (after (RegisterState Moving (Some onEnterMoving) (Some onTickMoving) None fresh)))
    = after (RegisterState Moving (Some onEnterMoving) (Some onTickMoving) None
        (after (RegisterState Idle (Some onEnterIdle) (Some onTickIdle) (Some onExitIdle)
           fresh))).
Proof.
  assert (Hne : Idle ≠ Moving) by discriminate.
  split; [exact Hne |].
  exact (RegisterState_commutes fresh Idle Moving _ _ _ _ _ _ Hne).
Defined.

Lemma RegisterState_then_Tick_witness :
  let w' := after (RegisterState Idle None (Some onTickIdle) None fresh) in
  Owner (machine fresh) ≠ nullptr
  ∧ CurrentState (machine fresh) = Idle
  ∧ result (Tick half w') = TickSuccess
  ∧ calls (Tick half w') = [CallFloat 1%N onTickIdle half].
Proof.
  intros w'.
  assert (Ho : Owner (machine fresh) ≠ nullptr) by (vm_compute; discriminate).
  assert (Hs : CurrentState (machine fresh) = Idle) by reflexivity.
  destruct (RegisterState_then_Tick fresh Idle None (Some onTickIdle) None half Ho Hs)
    as (Hr & Hc & _).
  split; [exact Ho |]. split; [exact Hs |]. split; [exact Hr | exact Hc].
Defined.

Lemma RegisterState_then_ChangeState_witness :
  let w' := after (RegisterState Moving (Some onEnterMoving) None None fresh) in
  Owner (machine fresh) ≠ nullptr
  ∧ CurrentState (machine fresh) ≠ Moving
  ∧ calls (ChangeState Moving w') = [CallVoid 1%N onEnterMoving]
  ∧ memory (after (ChangeState Moving w')) = [RanVoid onEnterMoving].
Proof.
  intros w'.
  assert (Ho : Owner (machine fresh) ≠ nullptr) by (vm_compute; discriminate).
  assert (Hs : CurrentState (machine fresh) ≠ Moving) by (vm_compute; discriminate).
  destruct (RegisterState_then_ChangeState fresh Moving Moving (Some onEnterMoving)
              None None Ho Hs) as (_ & Hto).
  destruct Hto as (Hc & Ha & _); [reflexivity | reflexivity |].
  split; [exact Ho |]. split; [exact Hs |]. split; [exact Hc |].
  etransitivity; [exact (f_equal memory Ha) | vm_compute; reflexivity].
Defined.

Lemma RegisterState_elsewhere_witness :
  let w' := after (RegisterState Blocked (Some onEnterBlocked) None None fresh) in
  CurrentState (machine fresh) ≠ Blocked
  ∧ result (Tick half w') = result (Tick half fresh)
  ∧ after (Tick half w')
    = after (RegisterState Blocked (Some onEnterBlocked) None None
        (after (Tick half fresh)))
  ∧ result (ChangeState Moving w') = result (ChangeState Moving fresh).
Proof.
  intros w'.
  assert (Hk : CurrentState (machine fresh) ≠ Blocked) by (vm_compute; discriminate).
  destruct (RegisterState_elsewhere fresh Blocked (Some onEnterBlocked) None None
              half Moving Hk) as ((Hr & _ & Ha) & Hc & _).
  split; [exact Hk |]. split; [exact Hr |]. split; [| exact Hc].
  apply Ha. vm_compute. reflexivity.
Defined.


Lemma Tick_NullOwner_frame_witness :
  let w' := after (Tick half fresh) in
  result (Tick half fresh) = NullOwner
  ∧ memory w' = memory fresh
  ∧ StatesTick (machine fresh) ⊆ StatesTick (machine w')
  ∧ StatesTick (machine w') = <[Idle := None]> (StatesTick (machine fresh))
  ∧ size (StatesTick (machine w')) ≤ 1
  ∧ Tick half w' = (NullOwner, w', []).
Proof.
  intros w'.
  assert (Hr : result (Tick half fresh) = NullOwner) by (vm_compute; reflexivity).
  destruct (Tick_NullOwner_frame fresh half half Hr)
    as ((_ & Hm & _ & _ & _ & _ & Hsub) & Hform & Hsize & Hagain).
  split; [exact Hr |]. split; [exact Hm |]. split; [exact Hsub |].
  split; [| split; [exact Hsize | exact Hagain]].
  destruct Hform as [Hsame | (_ & _ & Hins)]; [| exact Hins].
  apply (f_equal size) in Hsame. vm_compute in Hsame. discriminate.
Defined.

Lemma silent_machine_witness :
  silent fresh
  ∧ calls (ChangeState Moving fresh) = []
  ∧ CurrentState (machine (after (ChangeState Moving fresh))) = Moving
  ∧ result (Tick half fresh) = NullOwner.
Proof.
  assert (Hs : silent fresh) by apply silent_construct.
  destruct (silent_machine fresh Moving half Hs)
    as ((Hc & _ & _ & _ & Hcur) & (Hr & _) & _).
  split; [exact Hs |]. split; [exact Hc |]. split; [| exact Hr].
  apply Hcur. vm_compute. discriminate.
Defined.

Lemma ChangeState_there_and_back_witness :
  silent fresh
  ∧ Owner (machine fresh) ≠ nullptr
  ∧ after (ChangeState Idle (after (ChangeState Moving fresh))) ≡ fresh
  ∧ after (ChangeState Idle (after (ChangeState Moving fresh))) ≠ fresh.
Proof.
  assert (Hs : silent fresh) by apply silent_construct.
  assert (Ho : Owner (machine fresh) ≠ nullptr) by (vm_compute; discriminate).
  destruct (ChangeState_there_and_back fresh Moving Hs Ho) as (_ & _ & Ha).
  split; [exact Hs |]. split; [exact Ho |]. split; [exact Ha |].
  intros E. apply (f_equal (λ w, size (StatesOnExit (machine w)))) in E.
  vm_compute in E. discriminate.
Defined.

Lemma Owner_is_kept_witness :
  keeps_Owner ∧ keeps_Owner_float
  ∧ Owner (machine (after (ChangeState Blocked registered))) = 1%N
  ∧ Owner (machine (after (Tick half registered))) = 1%N.
Proof.
  destruct (Owner_is_kept registered Blocked half Idle None None None
              entity_keeps_Owner entity_keeps_Owner_float) as (Hc & Ht & _).
  split; [exact entity_keeps_Owner |]. split; [exact entity_keeps_Owner_float |].
  split; [exact Hc | exact Ht].
Defined.

Lemma callbacks_find_witness :
  Owner (machine registered) ≠ nullptr
  ∧ CurrentState (machine registered) ≠ Blocked
  ∧ result (GetCurrentState (after (StatesOnExit_at Idle registered))) = Idle
  ∧ memory (after (ChangeState Blocked registered))
    = [RanVoid onExitIdle; RanVoid onEnterBlocked; RanVoid onEnterIdle].
Proof.
  assert (Ho : Owner (machine registered) ≠ nullptr) by (vm_compute; discriminate).
  assert (Hs : CurrentState (machine registered) ≠ Blocked)
    by (vm_compute; discriminate).
  destruct (callbacks_find registered Blocked Ho Hs) as (Ha & (_ & Hx) & _).
  split; [exact Ho |]. split; [exact Hs |]. split; [exact Hx |].
  etransitivity; [exact (f_equal memory Ha) | vm_compute; reflexivity].
Defined.
